(** * nnsight: remote job execution protocol and batch planner

    A shallow embedding of
    - [Tracer.batch]           (refactor/nnsight04/intervention/contexts/tracer.py)
    - [RemoteBackend]          (intervention/backends/remote.py)
    - the legacy [RemoteBackend] (contexts/backends/RemoteBackend.py)
    together with the properties the specification states about them.

    Python values that the protocol only carries around are kept in a small
    universe of values; effects (HTTP, the websocket, the persisted
    configuration, printing, mutation of the caller's graph) are threaded
    through an explicit world in a state-and-exception monad. *)

From Stdlib Require Import ZArith List String Bool Lia.
From Stdlib Require Import Strings.Byte.
Import ListNotations.
Open Scope string_scope.
Open Scope list_scope.
Open Scope Z_scope.

(** ** Python values *)

(** The values that travel through the planner and the protocol: call
    arguments, node values, decoded results. *)
#[local] Unset Elimination Schemes.
Inductive PyVal : Type :=
| PyNone
| PyInt (n : Z)
| PyStr (s : string)
| PyTuple (items : list PyVal)
| PyList (items : list PyVal)
| PyDict (items : list (string * PyVal)).
#[local] Set Elimination Schemes.

(** A call's inputs: positional arguments and keyword arguments. *)
Definition Call : Type := (list PyVal * list (string * PyVal))%type.

(** ** The batch planner *)

Module Tracer.

(** What [Tracer.batch] uses of [self.model]: [_prepare_input] normalises
    one invocation's arguments and reports its batch size, [_batch] merges a
    prepared input into the running batched input ([None] at first) and
    returns the new one, which may again be [None]. *)
Record Model : Type := {
  _prepare_input : Call -> Call * Z;
  _batch : option Call -> Call -> option Call
}.

(** [(((0, -1),), dict())]: the input used when no invocation was batched. *)
Definition default_batched_input : Call :=
  ([PyTuple [PyInt 0; PyInt (-1)]], []).

(** The body of the [for args, kwargs in invoker_inputs] loop, with the three
    local variables [batch_groups], [batch_start] and [batched_input]. *)
Fixpoint batch_loop (model : Model) (invoker_inputs : list Call)
    (batch_groups : list (Z * Z)) (batch_start : Z)
    (batched_input : option Call) : option Call * list (Z * Z) :=
  match invoker_inputs with
  | [] => (batched_input, batch_groups)
  | inp :: rest =>
      let '(prepared, batch_size) := _prepare_input model inp in
      let batch_groups := batch_groups ++ [(batch_start, batch_size)] in
      let batched_input := _batch model batched_input prepared in
      batch_loop model rest batch_groups (batch_start + batch_size) batched_input
  end.

Definition batch (model : Model) (invoker_inputs : list Call)
    : Call * list (Z * Z) :=
  let '(batched_input, batch_groups) :=
    batch_loop model invoker_inputs [] 0 None in
  let batched_input :=
    match batched_input with
    | None => default_batched_input
    | Some b => b
    end in
  (batched_input, batch_groups).

(** The lengths [L1..Ln] reported by the prepare step, in submission order. *)
Definition lengths (model : Model) (invoker_inputs : list Call) : list Z :=
  map (fun inp => snd (_prepare_input model inp)) invoker_inputs.

Definition total (ls : list Z) : Z := fold_right Z.add 0 ls.

(** The groups the specification describes: running offset and length. *)
Fixpoint groups_from (start : Z) (ls : list Z) : list (Z * Z) :=
  match ls with
  | [] => []
  | l :: rest => (start, l) :: groups_from (start + l) rest
  end.

(** A model whose invocations are lists of prompts: the prepared length is
    the number of prompts, merging concatenates the positional arguments. *)
Definition prompt_model : Model := {|
  _prepare_input := fun c => (c, Z.of_nat (List.length (fst c)));
  _batch := fun acc c =>
    match acc with
    | None => Some c
    | Some (a, k) => Some (a ++ fst c, k)
    end
|}.

(** Three invocations with two, zero and one prompt. *)
Definition three_invocations : list Call :=
  [ ([PyStr "a"; PyStr "b"], []); ([], []); ([PyStr "c"], []) ].

End Tracer.

(** ** The remote backend: data *)

Module Remote.

Definition bytes : Type := list byte.

(** Exceptions raised along the paths modelled below. *)
Inductive Exn : Type :=
| KeyError (key : string)
| ValueError (what : string)
| TypeError (what : string)
| IndexError
| AttributeError (what : string)
| UnboundLocalError (var : string)
| ConnectionError (msg : string)
| Exception (msg : string)
| NNsightError (message : string) (node_index : Z)
| TransportError (what : string)
| DecodeError (what : string).

(** The result of running a piece of the client: it returns, it raises, or it
    never returns (a receive that blocks for ever, a loop that does not end). *)
Inductive Result (A : Type) : Type :=
| Returned (a : A)
| Raised (e : Exn)
| Hung.
Arguments Returned {A} a.
Arguments Raised {A} e.
Arguments Hung {A}.

(** [node.target]: the local-only coordination marker, or anything else. *)
Inductive Target : Type :=
| LocalContext
| Operation (fn : string).

Definition is_LocalContext (t : Target) : bool :=
  match t with LocalContext => true | Operation _ => false end.

(** A node of the caller's graph: its name and dense index, its target, its
    cached value ([_value]) and the traceback kept in [meta_data]. *)
Record Node : Type := {
  name : string;
  index : Z;
  target : Target;
  value : option PyVal;
  traceback : option string
}.

(** [graph.nodes], in index order. *)
Definition Graph : Type := list Node.

(** Graph objects live in a store and are passed by reference. *)
Definition GraphRef : Type := nat.

(** A decoded result: node name to value, in the order of the mapping. *)
Definition RESULT : Type := list (string * PyVal).

(** Modelled from the spec: the [JobStatus] enumeration of [ResponseModel]
    (schema/response.py is not among the sources): "one of Queued, Running,
    Stream, Completed, Error".  remote.py spells the last one
    [NNSIGHT_ERROR], the legacy backend [ERROR]. *)
Inductive JobStatus : Type :=
| QUEUED
| RUNNING
| STREAM
| COMPLETED
| NNSIGHT_ERROR.

(** [response.data], by the shapes the client takes it apart in: [None], a
    result mapping, an [(index, dependencies)] pair, or a mapping with the
    keys ['node_id'] and ['message'].  A branch handed a shape it cannot
    take apart raises. *)
Inductive Data : Type :=
| NoData
| ResultData (result : RESULT)
| StreamData (node_index : Z) (dependencies : RESULT)
| ErrorData (node_id : Z) (message : string).

Record ResponseModel : Type := {
  id : string;
  status : JobStatus;
  data : Data
}.

(** What [requests.get]/[requests.post] hand back on the request/response
    channel: the status code, the decoded body, the reason phrase and the
    ["detail"] entry of an error body. *)
Record HttpResponse : Type := {
  status_code : Z;
  json : ResponseModel;
  reason : string;
  detail : string
}.

(** The ["Content-length"] header of a streamed result: absent, present but
    not a number, or a declared size. *)
Inductive ContentLength : Type :=
| NoHeader
| BadHeader (text : string)
| Declared (total_size : Z).

(** How [iter_content] stops: the stream is exhausted, or the transport
    raises because the connection dropped. *)
Inductive StreamEnd : Type :=
| Exhausted
| Dropped (e : Exn).

(** The streamed body of [GET /result/{id}]: header, the chunks in arrival
    order, and how the iteration ends after them. *)
Record ResultStream : Type := {
  content_length : ContentLength;
  chunks : list bytes;
  ending : StreamEnd
}.

(** Effects visible outside the client, recorded in the order they happen. *)
Inductive Event : Type :=
| EvLog (response : ResponseModel)
| EvPrint (text : string)
| EvConnect (ws_address : string)
| EvReceive (response : ResponseModel)
| EvCopy (src dst : GraphRef)
| EvPrune (graph : GraphRef) (node : Node)
| EvSerialize (graph : GraphRef)
| EvPost (url : string) (body : bytes) (headers : list (string * string))
| EvGetResponse (url : string)
| EvGetResult (url : string)
| EvProgress (received : Z)
| EvInject (graph : GraphRef) (payload : RESULT)
| EvExecute (graph : GraphRef) (node_index : Z)
| EvHandleResultValue (payload : RESULT)
| EvStreamCallback (response : ResponseModel)
| EvSave (job_id : option string).

(** [CONFIG.API] *)
Record Config : Type := {
  HOST : string;
  SSL : bool;
  ZLIB : bool;
  FORMAT : string;
  APIKEY : string;
  JOB_ID : option string
}.

(** The mutable world: the store of graph objects, the configuration in
    memory, the job id as last written by [CONFIG.save()], and the effects
    performed so far (oldest first). *)
Record World : Type := {
  heap : list Graph;
  CONFIG : Config;
  saved_JOB_ID : option string;
  trace : list Event
}.

(** The collaborators outside the client.  The server: whether the
    websocket connects (and the session id), the messages it then delivers,
    its reply to the POST of a request and to the GET of a job's status, and
    the stream it serves a result as.  The codecs: [torch.load] followed by
    [ResultModel], [str(response)], the two encoders of [serialize] and
    [zlib.compress].  The graph's own operations, which are not among the
    sources: [node.execute()] and [LocalContext.prune(node)], each as its
    effect on the nodes of the graph the node belongs to. *)
Record Env : Type := {
  sio_connect : Result string;
  sio_messages : list ResponseModel;
  post_reply : HttpResponse;
  get_reply : string -> HttpResponse;
  result_stream : string -> ResultStream;
  torch_load : bytes -> Result RESULT;
  response_str : ResponseModel -> string;
  json_encode : Graph -> bytes;
  torch_save : Graph -> bytes;
  zlib_compress : bytes -> bytes;
  execute : Node -> Graph -> Result Graph;
  prune : Node -> Graph -> Graph
}.

(** ** The state-and-exception monad of the client *)

Definition M (A : Type) : Type := World -> Result A * World.

Definition ret {A} (a : A) : M A := fun w => (Returned a, w).

Definition bind {A B} (m : M A) (k : A -> M B) : M B :=
  fun w =>
    match m w with
    | (Returned a, w') => k a w'
    | (Raised e, w') => (Raised e, w')
    | (Hung, w') => (Hung, w')
    end.

Definition raise {A} (e : Exn) : M A := fun w => (Raised e, w).

Definition hang {A} : M A := fun w => (Hung, w).

(** Lift the answer of an outside collaborator. *)
Definition lift {A} (r : Result A) : M A := fun w => (r, w).

(** [try: body except Exception as e: handler(e)] *)
Definition try_except {A} (body : M A) (handler : Exn -> M A) : M A :=
  fun w =>
    match body w with
    | (Raised e, w') => handler e w'
    | other => other
    end.

Declare Scope client_scope.
Delimit Scope client_scope with client.
Notation "x <- m ;; k" := (bind m (fun x => k))
  (at level 61, m at next level, right associativity) : client_scope.
Notation "m ;;; k" := (bind m (fun _ => k))
  (at level 61, right associativity) : client_scope.
Open Scope client_scope.

Definition emit (ev : Event) : M unit :=
  fun w => (Returned tt,
            {| heap := heap w; CONFIG := CONFIG w;
               saved_JOB_ID := saved_JOB_ID w;
               trace := trace w ++ [ev] |}).

(** *** The store of graph objects *)

Definition read_graph (g : GraphRef) : M Graph :=
  fun w => (Returned (nth g (heap w) []), w).

Fixpoint store {A} (l : list A) (i : nat) (x : A) : list A :=
  match l, i with
  | [], _ => []
  | _ :: rest, O => x :: rest
  | y :: rest, S i' => y :: store rest i' x
  end.

Definition write_graph (g : GraphRef) (nodes : Graph) : M unit :=
  fun w => (Returned tt,
            {| heap := store (heap w) g nodes; CONFIG := CONFIG w;
               saved_JOB_ID := saved_JOB_ID w; trace := trace w |}).

(** A new graph object, placed after the existing ones. *)
Definition alloc_graph (nodes : Graph) : M GraphRef :=
  fun w => (Returned (List.length (heap w)),
            {| heap := heap w ++ [nodes]; CONFIG := CONFIG w;
               saved_JOB_ID := saved_JOB_ID w; trace := trace w |}).

(** *** The persisted configuration *)

(** [CONFIG.API.JOB_ID = job_id] *)
Definition set_JOB_ID (job_id : option string) : M unit :=
  fun w => (Returned tt,
            {| heap := heap w;
               CONFIG := {| HOST := HOST (CONFIG w); SSL := SSL (CONFIG w);
                            ZLIB := ZLIB (CONFIG w);
                            FORMAT := FORMAT (CONFIG w);
                            APIKEY := APIKEY (CONFIG w);
                            JOB_ID := job_id |};
               saved_JOB_ID := saved_JOB_ID w; trace := trace w |}).

(** [CONFIG.save()] *)
Definition save : M unit :=
  fun w => (Returned tt,
            {| heap := heap w; CONFIG := CONFIG w;
               saved_JOB_ID := JOB_ID (CONFIG w);
               trace := trace w ++ [EvSave (JOB_ID (CONFIG w))] |}).

(** *** Python list indexing and the graph interface *)

(** [l[i]] for a Python integer: negative indices count from the end, an
    index out of range is an [IndexError] (here: [None]). *)
Definition py_index {A} (l : list A) (i : Z) : option A :=
  let n := Z.of_nat (List.length l) in
  if 0 <=? i then nth_error l (Z.to_nat i)
  else if - n <=? i then nth_error l (Z.to_nat (n + i))
  else None.

Definition set_value (v : PyVal) (n : Node) : Node :=
  {| name := name n; index := index n; target := target n;
     value := Some v; traceback := traceback n |}.

Definition has_name (key : string) (n : Node) : bool := String.eqb key (name n).

(** Overwrite the cached value of the node called [key]. *)
Fixpoint overwrite (key : string) (v : PyVal) (nodes : Graph) : Graph :=
  match nodes with
  | [] => []
  | n :: rest =>
      if has_name key n then set_value v n :: rest
      else n :: overwrite key v rest
  end.

(** Modelled from the spec: [ResultModel.inject(graph, payload)]
    (schema/result.py is not among the sources): "every entry overwrites the
    corresponding node's cached value; node names absent from the payload are
    left untouched"; "injection never creates new nodes - a payload
    referencing an unknown node name is a protocol violation and must fail
    loudly"; values written before such a fault stay written. *)
Fixpoint inject_nodes (payload : RESULT) (nodes : Graph) : Graph * option Exn :=
  match payload with
  | [] => (nodes, None)
  | (key, v) :: rest =>
      if existsb (has_name key) nodes
      then inject_nodes rest (overwrite key v nodes)
      else (nodes, Some (KeyError key))
  end.

(** [ResultModel.inject(graph, payload)] on a graph reference; with no graph
    ([None]) there is nothing to look a node up in. *)
Definition inject (graph : option GraphRef) (payload : RESULT) : M unit :=
  match graph with
  | None =>
      match payload with
      | [] => ret tt
      | _ :: _ => raise (AttributeError "nodes")
      end
  | Some g =>
      emit (EvInject g payload) ;;;
      nodes <- read_graph g ;;
      let '(nodes', fault) := inject_nodes payload nodes in
      write_graph g nodes' ;;;
      match fault with
      | None => ret tt
      | Some e => raise e
      end
  end.

(** [ResultModel.inject(graph, result)] for whatever a Completed message
    carried: only a result mapping can be injected. *)
Definition inject_data (graph : option GraphRef) (result : Data) : M unit :=
  match result with
  | ResultData r => inject graph r
  | _ => raise (TypeError "result")
  end.

(** [graph.nodes[i]] *)
Definition graph_node (graph : option GraphRef) (i : Z) : M Node :=
  match graph with
  | None => raise (AttributeError "nodes")
  | Some g =>
      nodes <- read_graph g ;;
      match py_index nodes i with
      | Some n => ret n
      | None => raise IndexError
      end
  end.

(** [node.execute()], run by the external collaborator on the node's graph. *)
Definition node_execute (env : Env) (g : GraphRef) (node : Node) : M unit :=
  emit (EvExecute g (index node)) ;;;
  nodes <- read_graph g ;;
  nodes' <- lift (execute env node nodes) ;;
  write_graph g nodes'.

(** ** The remote backend: operations (intervention/backends/remote.py) *)

Record RemoteBackend : Type := {
  model_key : string;
  job_id : option string;
  ssl : bool;
  zlib : bool;
  format : string;
  api_key : string;
  blocking : bool;
  host : string;
  address : string;
  ws_address : string
}.

(** [a or b] on optional strings: [None] and the empty string are false. *)
Definition or_else (a b : option string) : option string :=
  match a with
  | Some s => if String.eqb s "" then b else a
  | None => b
  end.

(** [RemoteBackend.__init__] *)
Definition init (cfg : Config) (model_key : string) (host : option string)
    (blocking : bool) (job_id : option string) (ssl : option bool)
    (api_key : string) : RemoteBackend :=
  let ssl' := match ssl with None => SSL cfg | Some b => b end in
  let host' :=
    match or_else host (Some (HOST cfg)) with Some h => h | None => "" end in
  {| model_key := model_key;
     job_id := or_else job_id (JOB_ID cfg);
     ssl := ssl';
     zlib := ZLIB cfg;
     format := FORMAT cfg;
     api_key := if String.eqb api_key "" then APIKEY cfg else api_key;
     blocking := blocking;
     host := host';
     address := "http" ++ (if ssl' then "s" else "") ++ "://" ++ host';
     ws_address := "ws" ++ (if SSL cfg then "s" else "") ++ "://" ++ host' |}.

(** [str(b)] for a Python boolean. *)
Definition str_bool (b : bool) : string := if b then "True" else "False".

(** [headers[key] = v] *)
Fixpoint set_header (key v : string) (headers : list (string * string))
    : list (string * string) :=
  match headers with
  | [] => [(key, v)]
  | (k, x) :: rest =>
      if String.eqb k key then (k, v) :: rest
      else (k, x) :: set_header key v rest
  end.

(** [RemoteBackend.serialize]: with a format other than ["json"] and ["pt"]
    the local [data] is never bound. *)
Definition serialize (env : Env) (self : RemoteBackend) (graph : GraphRef)
    : M (bytes * list (string * string)) :=
  emit (EvSerialize graph) ;;;
  nodes <- read_graph graph ;;
  data <- (if String.eqb (format self) "json" then ret (json_encode env nodes)
           else if String.eqb (format self) "pt" then ret (torch_save env nodes)
           else raise (UnboundLocalError "data")) ;;
  let data := if zlib self then zlib_compress env data else data in
  let headers := [ ("model_key", model_key self);
                   ("format", format self);
                   ("zlib", str_bool (zlib self)) ] in
  ret (data, headers).

(** The [for data in stream.iter_content(chunk_size=None)] loop. *)
Fixpoint iter_content (chunks : list bytes) (result_bytes : bytes) : M bytes :=
  match chunks with
  | [] => ret result_bytes
  | data :: rest =>
      emit (EvProgress (Z.of_nat (List.length data))) ;;;
      iter_content rest (result_bytes ++ data)
  end.

(** The streamed transfer of [get_result]: the buffer [result_bytes] once the
    [with requests.get(...)] block is left. *)
Definition download (env : Env) (self : RemoteBackend) (id : string) : M bytes :=
  emit (EvGetResult (address self ++ "/result/" ++ id)) ;;;
  let stream := result_stream env id in
  match content_length stream with
  | NoHeader => raise (KeyError "content-length")
  | BadHeader text => raise (ValueError text)
  | Declared total_size =>
      result_bytes <- iter_content (chunks stream) [] ;;
      match ending stream with
      | Exhausted => ret result_bytes
      | Dropped e => raise e
      end
  end.

(** [RemoteBackend.get_result]: download, then decode ([torch.load] and
    [ResultModel]). *)
Definition get_result (env : Env) (self : RemoteBackend) (id : string)
    : M RESULT :=
  result_bytes <- download env self id ;;
  lift (torch_load env result_bytes).

Definition newline : string := String (Ascii.ascii_of_nat 10) "".

(** [RemoteBackend.handle_response]; [None] is the return of the branches
    that fall off the end of the function.  A Stream message unpacks its
    data into two items before anything else: [None] does not unpack, a
    mapping unpacks into its keys when it has exactly two, and the second
    key, a string, is then handed to the injection as if it were the
    dependencies, which no mapping of node names to values it is.  An error
    status reads [graph.nodes] before it looks into the data.  The
    assignment to [sys.tracebacklimit] before the raise only shortens what
    the interpreter prints for the exception and has no counterpart here. *)
Definition handle_response (env : Env) (self : RemoteBackend)
    (response : ResponseModel) (graph : option GraphRef) : M (option Data) :=
  emit (EvLog response) ;;;
  match status response with
  | COMPLETED =>
      match data response with
      | NoData =>
          result <- get_result env self (id response) ;;
          ret (Some (ResultData result))
      | result => ret (Some result)
      end
  | STREAM =>
      match data response with
      | StreamData index dependencies =>
          inject graph dependencies ;;;
          node <- graph_node graph index ;;
          match graph with
          | Some g => node_execute env g node ;;; ret None
          | None => raise (AttributeError "nodes")
          end
      | NoData => raise (TypeError "unpack")
      | ErrorData _ _ => raise (TypeError "dependencies")
      | ResultData [_; _] => raise (TypeError "dependencies")
      | ResultData _ => raise (ValueError "unpack")
      end
  | NNSIGHT_ERROR =>
      match graph with
      | None => raise (AttributeError "nodes")
      | Some _ =>
          match data response with
          | ErrorData node_id message =>
              error_node <- graph_node graph node_id ;;
              match traceback error_node with
              | None => raise (KeyError "traceback")
              | Some tb =>
                  emit (EvPrint (newline ++ tb)) ;;;
                  raise (NNsightError message (index error_node))
              end
          | ResultData _ => raise (KeyError "node_id")
          | _ => raise (TypeError "subscript")
          end
      end
  | _ => ret None
  end.

(** [RemoteBackend.submit_request] *)
Definition submit_request (env : Env) (self : RemoteBackend) (data : bytes)
    (headers : list (string * string)) : M ResponseModel :=
  let headers := set_header "Content-Type" "application/octet-stream" headers in
  emit (EvPost (address self ++ "/request") data headers) ;;;
  let response := post_reply env in
  if status_code response =? 200 then
    let response := json response in
    handle_response env self response None ;;;
    ret response
  else raise (ConnectionError (detail response)).

(** How an f-string shows [self.job_id]. *)
Definition show_job_id (job_id : option string) : string :=
  match job_id with Some j => j | None => "None" end.

(** [RemoteBackend.get_response] *)
Definition get_response (env : Env) (self : RemoteBackend) : M (option Data) :=
  emit (EvGetResponse (address self ++ "/response/" ++ show_job_id (job_id self))) ;;;
  let response := get_reply env (show_job_id (job_id self)) in
  if status_code response =? 200 then
    handle_response env self (json response) None
  else raise (Exception (reason response)).

(** The loop of [preprocess]: a Python list iterator is a cursor into the
    list, which [prune] may change under it.  [fuel] bounds the number of
    iterations; the length of the list the loop starts from, which
    [preprocess] gives it, is enough for every pruning that adds no node to
    the list (one that adds nodes can keep the loop going for longer, or for
    ever). *)
Fixpoint prune_loop (env : Env) (new_graph : GraphRef) (fuel cursor : nat)
    : M unit :=
  nodes <- read_graph new_graph ;;
  match nth_error nodes cursor with
  | None => ret tt
  | Some node =>
      match fuel with
      | O => hang
      | S fuel' =>
          (if is_LocalContext (target node)
           then emit (EvPrune new_graph node) ;;;
                write_graph new_graph (prune env node nodes)
           else ret tt) ;;;
          prune_loop env new_graph fuel' (S cursor)
      end
  end.

(** Modelled from the spec: [Graph.copy()] (tracing/graph is not among the
    sources): the pruning works on "a copy of the graph", a new graph object
    holding the same nodes, so that "the caller's original graph is never
    mutated". *)
Definition graph_copy (graph : GraphRef) : M GraphRef :=
  nodes <- read_graph graph ;;
  new_graph <- alloc_graph nodes ;;
  emit (EvCopy graph new_graph) ;;;
  ret new_graph.

(** [preprocess] *)
Definition preprocess (env : Env) (graph : GraphRef) : M GraphRef :=
  new_graph <- graph_copy graph ;;
  nodes <- read_graph new_graph ;;
  prune_loop env new_graph (List.length nodes) 0 ;;;
  ret new_graph.

(** The [while True] loop of [blocking_request] over the messages the
    websocket delivers; with none left, [sio.receive()] blocks. *)
Fixpoint receive_loop (env : Env) (self : RemoteBackend) (graph : GraphRef)
    (messages : list ResponseModel) : M (option Data) :=
  match messages with
  | [] => hang
  | response :: rest =>
      emit (EvReceive response) ;;;
      result <- handle_response env self response (Some graph) ;;
      match result with
      | Some r => ret (Some r)
      | None => receive_loop env self graph rest
      end
  end.

(** [RemoteBackend.blocking_request] *)
Definition blocking_request (env : Env) (self : RemoteBackend)
    (graph : GraphRef) : M (option Data) :=
  emit (EvConnect (ws_address self)) ;;;
  sid <- lift (sio_connect env) ;;
  remote_graph <- preprocess env graph ;;
  serialized <- serialize env self remote_graph ;;
  let '(data, headers) := serialized in
  let headers := set_header "session_id" sid headers in
  submit_request env self data headers ;;;
  receive_loop env self graph (sio_messages env).

(** [RemoteBackend.non_blocking_request] *)
Definition non_blocking_request (env : Env) (self : RemoteBackend)
    (graph : GraphRef) : M (option Data) :=
  match job_id self with
  | None =>
      serialized <- serialize env self graph ;;
      let '(data, headers) := serialized in
      response <- submit_request env self data headers ;;
      set_JOB_ID (Some (id response)) ;;;
      save ;;;
      ret None
  | Some _ =>
      try_except
        (result <- get_response env self ;;
         match result with
         | Some r =>
             set_JOB_ID None ;;;
             save ;;;
             ret (Some r)
         | None => ret None
         end)
        (fun e =>
           set_JOB_ID None ;;;
           save ;;;
           raise e)
  end.

(** [RemoteBackend.__call__] *)
Definition call (env : Env) (self : RemoteBackend) (graph : GraphRef) : M unit :=
  result <- (if blocking self then blocking_request env self graph
             else non_blocking_request env self graph) ;;
  match result with
  | Some r => inject_data (Some graph) r
  | None => ret tt
  end.

End Remote.

(** ** The legacy backend (contexts/backends/RemoteBackend.py) *)

Module Legacy.
Import Remote.

(** [Tracer.remote_backend_handle_result_value] (tracer.py): for each entry
    [self.graph.nodes[node_name]._value = node_value]; a name that is not a
    node is a [KeyError], and what was written before it stays. *)
Fixpoint remote_backend_handle_result_value (value : RESULT) (nodes : Graph)
    : Graph * option Exn :=
  match value with
  | [] => (nodes, None)
  | (node_name, node_value) :: rest =>
      if existsb (has_name node_name) nodes
      then remote_backend_handle_result_value rest
             (overwrite node_name node_value nodes)
      else (nodes, Some (KeyError node_name))
  end.

(** [RequestModel(object=obj, model_key=...)], with the session id the
    blocking path adds. *)
Record RequestModel : Type := {
  object : GraphRef;
  request_model_key : string;
  session_id : option string
}.

(** [RemoteBackend.handle_response]; [object] is the graph of [self.object],
    the [Tracer] of tracer.py.  The error status is spelt [ERROR] in this
    file.  A Stream message unpacks its data into leading arguments and a
    last item, the value, and hands the arguments to
    [remote_backend_get_stream_node], which for the [Tracer] takes a name and
    a graph id and looks the name up in [graph.nodes]: a pair, and a mapping
    with other than three keys, bring the wrong number of arguments; the
    callback that is then run on the node is not among the sources. *)
Definition handle_response (env : Env) (self : RemoteBackend)
    (object : GraphRef) (response : ResponseModel) : M ResponseModel :=
  emit (EvLog response) ;;;
  match status response with
  | COMPLETED =>
      result_bytes <- download env self (id response) ;;
      result <- lift (torch_load env result_bytes) ;;
      emit (EvHandleResultValue result) ;;;
      nodes <- read_graph object ;;
      let '(nodes', fault) := remote_backend_handle_result_value result nodes in
      write_graph object nodes' ;;;
      match fault with
      | None => ret response
      | Some e => raise e
      end
  | STREAM =>
      match data response with
      | NoData => raise (TypeError "unpack")
      | StreamData _ _ => raise (TypeError "graph_id")
      | ErrorData _ _ => raise (TypeError "graph_id")
      | ResultData [] => raise (ValueError "unpack")
      | ResultData [(name, _); _; _] =>
          nodes <- read_graph object ;;
          if existsb (has_name name) nodes
          then emit (EvStreamCallback response) ;;; ret response
          else raise (KeyError name)
      | ResultData _ => raise (TypeError "arguments")
      end
  | NNSIGHT_ERROR => raise (Exception (response_str env response))
  | _ => ret response
  end.

(** [RemoteBackend.submit_request] *)
Definition submit_request (env : Env) (self : RemoteBackend)
    (request : RequestModel) : M ResponseModel :=
  emit (EvSerialize (object request)) ;;;
  nodes <- read_graph (object request) ;;
  emit (EvPost (address self ++ "/request") (json_encode env nodes)
          [("ndif-api-key", api_key self)]) ;;;
  let response := post_reply env in
  if status_code response =? 200 then
    handle_response env self (object request) (json response)
  else raise (Exception (reason response)).

(** [RemoteBackend.get_response] *)
Definition get_response (env : Env) (self : RemoteBackend) (object : GraphRef)
    : M ResponseModel :=
  emit (EvGetResponse (address self ++ "/response/" ++ show_job_id (job_id self))) ;;;
  let response := get_reply env (show_job_id (job_id self)) in
  if status_code response =? 200 then
    handle_response env self object (json response)
  else raise (Exception (reason response)).

Definition is_COMPLETED (s : JobStatus) : bool :=
  match s with COMPLETED => true | _ => false end.

(** [RemoteBackend.non_blocking_request] *)
Definition non_blocking_request (env : Env) (self : RemoteBackend)
    (object : GraphRef) (request : option RequestModel) : M unit :=
  match request with
  | Some request =>
      response <- submit_request env self request ;;
      set_JOB_ID (Some (id response)) ;;;
      save
  | None =>
      try_except
        (response <- get_response env self object ;;
         if is_COMPLETED (status response)
         then set_JOB_ID None ;;; save
         else ret tt)
        (fun e =>
           set_JOB_ID None ;;;
           save ;;;
           raise e)
  end.

End Legacy.

(** ** Concrete graphs, messages and collaborators *)

Module Examples.
Import Remote.

Definition node_a : Node :=
  {| name := "a"; index := 0; target := Operation "input";
     value := None; traceback := Some "File user.py, line 3" |}.

Definition node_local : Node :=
  {| name := "local"; index := 1; target := LocalContext;
     value := None; traceback := Some "File user.py, line 4" |}.

Definition node_b : Node :=
  {| name := "b"; index := 2; target := Operation "add";
     value := None; traceback := Some "File user.py, line 5" |}.

Definition graph_ab : Graph := [node_a; node_local; node_b].

Definition config (job : option string) : Config :=
  {| HOST := "ndif.dev"; SSL := true; ZLIB := false; FORMAT := "json";
     APIKEY := "key"; JOB_ID := job |}.

(** One graph object, at reference 0, and the given persisted job id. *)
Definition world (job : option string) : World :=
  {| heap := [graph_ab]; CONFIG := config job; saved_JOB_ID := job;
     trace := [] |}.

Definition message (s : JobStatus) (d : Data) : ResponseModel :=
  {| id := "job-42"; status := s; data := d |}.

Definition queued : ResponseModel := message QUEUED NoData.
Definition running : ResponseModel := message RUNNING NoData.
Definition stream_b : ResponseModel :=
  message STREAM (StreamData 2 [("a", PyInt 5)]).
Definition completed_inline : ResponseModel :=
  message COMPLETED (ResultData [("b", PyInt 10)]).
Definition completed_null : ResponseModel := message COMPLETED NoData.
Definition failed : ResponseModel :=
  message NNSIGHT_ERROR (ErrorData 2 "division by zero").

Definition http_ok (r : ResponseModel) : HttpResponse :=
  {| status_code := 200; json := r; reason := "OK"; detail := "" |}.

Definition three_bytes : ResultStream :=
  {| content_length := Declared 3;
     chunks := [[x61; x62]; [x63]];
     ending := Exhausted |}.

Definition empty_stream : ResultStream :=
  {| content_length := Declared 0; chunks := []; ending := Exhausted |}.

Definition dropped_stream : ResultStream :=
  {| content_length := Declared 3;
     chunks := [[x61]];
     ending := Dropped (TransportError "connection reset") |}.

Definition headless_stream : ResultStream :=
  {| content_length := NoHeader; chunks := []; ending := Exhausted |}.

(** A pruning that removes the marker node from the list of nodes. *)
Definition drop_node (n : Node) (nodes : Graph) : Graph :=
  filter (fun m => negb (String.eqb (name m) (name n))) nodes.

(** Collaborators: the websocket delivers [messages], a status poll is
    answered by [polled], results are streamed as [stream]. *)
Definition env (messages : list ResponseModel) (polled : ResponseModel)
    (stream : ResultStream) : Env :=
  {| sio_connect := Returned "sid-1";
     sio_messages := messages;
     post_reply := http_ok queued;
     get_reply := fun _ => http_ok polled;
     result_stream := fun _ => stream;
     torch_load := fun _ => Returned [("b", PyInt 10)];
     response_str := fun r => id r;
     json_encode := fun _ => [x7b; x7d];
     torch_save := fun _ => [x80];
     zlib_compress := fun b => b;
     execute := fun _ nodes => Returned nodes;
     prune := drop_node |}.

(** A blocking backend, and a non-blocking one built while [job] is the
    persisted job id. *)
Definition blocking_backend : RemoteBackend :=
  init (config None) "model" None true None None "".

Definition polling_backend (job : option string) : RemoteBackend :=
  init (config job) "model" None false None None "".

End Examples.

(** ** The vLLM model's side of batching (models/vllm/vllm.py) *)

Module VLLM.
Import Remote.

(** [d[key]], if the key is there. *)
Fixpoint get_item (key : string) (d : list (string * PyVal)) : option PyVal :=
  match d with
  | [] => None
  | (k, v) :: rest => if String.eqb k key then Some v else get_item key rest
  end.

(** [d[key] = v] *)
Fixpoint set_item (key : string) (v : PyVal) (d : list (string * PyVal))
    : list (string * PyVal) :=
  match d with
  | [] => [(key, v)]
  | (k, x) :: rest =>
      if String.eqb k key then (k, v) :: rest
      else (k, x) :: set_item key v rest
  end.

(** [key in d] *)
Definition has_key (key : string) (d : list (string * PyVal)) : bool :=
  match get_item key d with Some _ => true | None => false end.

(** [NNsightSamplingParams] built from keyword arguments (the class is not
    among the sources):
    an object of the class is kept as the name of the class with the mapping
    of its attributes, which start as the keyword arguments. *)
Definition NNsightSamplingParams (kwargs : list (string * PyVal)) : PyVal :=
  PyTuple [PyStr "NNsightSamplingParams"; PyDict kwargs].

(** [len(v)] *)
Definition py_len (v : PyVal) : Result Z :=
  match v with
  | PyList items | PyTuple items => Returned (Z.of_nat (List.length items))
  | PyDict items => Returned (Z.of_nat (List.length items))
  | PyStr s => Returned (Z.of_nat (String.length s))
  | PyNone | PyInt _ => Raised (TypeError "len")
  end.

(** [if not type(arg) is list: arg = [arg]] *)
Definition as_list (arg : PyVal) : list PyVal :=
  match arg with
  | PyList items => items
  | other => [other]
  end.

(** [True] is the integer 1. *)
Definition PyTrue : PyVal := PyInt 1.

(** [VLLM._prepare_input] on positional and keyword arguments; a keyword
    argument called
    [self] collides with the method's own parameter. *)
Definition _prepare_input (call : Call) : Result (Call * Z) :=
  let '(args, kwargs) := call in
  if has_key "self" kwargs then Raised (TypeError "self")
  else if has_key "processed" kwargs then
    match args with
    | [] => Raised IndexError
    | first :: _ =>
        match py_len first with
        | Returned n => Returned ((args, kwargs), n)
        | Raised e => Raised e
        | Hung => Hung
        end
    end
  else
    let prompts := flat_map as_list args in
    let params := map (fun _ => NNsightSamplingParams kwargs) prompts in
    Returned (([PyList prompts; PyList params], [("processed", PyTrue)]),
              Z.of_nat (List.length prompts)).

(** The characters of a string, as strings. *)
Fixpoint characters (s : string) : list PyVal :=
  match s with
  | EmptyString => []
  | String c rest => PyStr (String c EmptyString) :: characters rest
  end.

(** What [for x in v] goes through. *)
Definition iterate (v : PyVal) : Result (list PyVal) :=
  match v with
  | PyList items | PyTuple items => Returned items
  | PyDict items => Returned (map (fun entry => PyStr (fst entry)) items)
  | PyStr s => Returned (characters s)
  | PyNone | PyInt _ => Raised (TypeError "iter")
  end.

(** [target.append(x)] *)
Definition append (target x : PyVal) : Result PyVal :=
  match target with
  | PyList items => Returned (PyList (items ++ [x]))
  | _ => Raised (AttributeError "append")
  end.

(** [param.invoker_group = invoker_group] *)
Definition set_invoker_group (invoker_group param : PyVal) : Result PyVal :=
  match param with
  | PyTuple [PyStr "NNsightSamplingParams"; PyDict attrs] =>
      Returned (NNsightSamplingParams
                  (set_item "invoker_group" invoker_group attrs))
  | _ => Raised (AttributeError "invoker_group")
  end.

(** [for prompt in prompts: bprompts.append(prompt)] *)
Fixpoint append_prompts (bprompts : PyVal) (prompts : list PyVal)
    : Result PyVal :=
  match prompts with
  | [] => Returned bprompts
  | prompt :: rest =>
      match append bprompts prompt with
      | Returned bprompts' => append_prompts bprompts' rest
      | other => other
      end
  end.

(** [for param in params: param.invoker_group = invoker_group;
    bparams.append(param)].  Parameter objects are values here, so that the
    assignment shows in the merged list only: that is all there is to see
    for the objects [_prepare_input] makes, a new one for every prompt. *)
Fixpoint append_params (invoker_group bparams : PyVal) (params : list PyVal)
    : Result PyVal :=
  match params with
  | [] => Returned bparams
  | param :: rest =>
      match set_invoker_group invoker_group param with
      | Returned param' =>
          match append bparams param' with
          | Returned bparams' => append_params invoker_group bparams' rest
          | other => other
          end
      | Raised e => Raised e
      | Hung => Hung
      end
  end.

(** How the call of [_batch] with the batched input, the positional and the
    keyword arguments binds the
    parameters [prompts] and [params]: by position first, then by keyword;
    one given twice, or not at all, is a [TypeError]. *)
Definition bind_prompts_params (call : Call) : Result (PyVal * PyVal) :=
  let '(args, kwargs) := call in
  if has_key "self" kwargs || has_key "batched_inputs" kwargs
  then Raised (TypeError "multiple values")
  else
    match args with
    | [] =>
        match get_item "prompts" kwargs, get_item "params" kwargs with
        | Some prompts, Some params => Returned (prompts, params)
        | _, _ => Raised (TypeError "missing argument")
        end
    | [prompts] =>
        if has_key "prompts" kwargs then Raised (TypeError "multiple values")
        else match get_item "params" kwargs with
             | Some params => Returned (prompts, params)
             | None => Raised (TypeError "missing argument")
             end
    | [prompts; params] =>
        if has_key "prompts" kwargs || has_key "params" kwargs
        then Raised (TypeError "multiple values")
        else Returned (prompts, params)
    | _ => Raised (TypeError "too many arguments")
    end.

(** [VLLM._batch] on the batched inputs so far and a prepared call *)
Definition _batch (batched_inputs : option Call) (call : Call) : Result Call :=
  match bind_prompts_params call with
  | Returned (prompts, params) =>
      let batched_inputs :=
        match batched_inputs with
        | None => ([PyList []; PyList []], [("invoker_group", PyInt 0)])
        | Some b => b
        end in
      match fst batched_inputs with
      | [bprompts; bparams] =>
          let kwargs := snd batched_inputs in
          match get_item "invoker_group" kwargs with
          | None => Raised (KeyError "invoker_group")
          | Some invoker_group =>
              match iterate prompts with
              | Returned prompts =>
                  match append_prompts bprompts prompts with
                  | Returned bprompts =>
                      match iterate params with
                      | Returned params =>
                          match append_params invoker_group bparams params with
                          | Returned bparams =>
                              match invoker_group with
                              | PyInt n =>
                                  Returned
                                    ([bprompts; bparams],
                                     set_item "invoker_group" (PyInt (n + 1))
                                       kwargs)
                              | _ => Raised (TypeError "+=")
                              end
                          | Raised e => Raised e
                          | Hung => Hung
                          end
                      | Raised e => Raised e
                      | Hung => Hung
                      end
                  | Raised e => Raised e
                  | Hung => Hung
                  end
              | Raised e => Raised e
              | Hung => Hung
              end
          end
      | _ => Raised (ValueError "unpack")
      end
  | Raised e => Raised e
  | Hung => Hung
  end.

(** The loop of [Tracer.batch] when [self.model] is a [VLLM]: an exception
    raised by one of the model's methods ends the planning. *)
Fixpoint batch_loop (invoker_inputs : list Call) (batch_groups : list (Z * Z))
    (batch_start : Z) (batched_input : option Call)
    : Result (option Call * list (Z * Z)) :=
  match invoker_inputs with
  | [] => Returned (batched_input, batch_groups)
  | inp :: rest =>
      match _prepare_input inp with
      | Returned (prepared, batch_size) =>
          let batch_groups := batch_groups ++ [(batch_start, batch_size)] in
          match _batch batched_input prepared with
          | Returned b =>
              batch_loop rest batch_groups (batch_start + batch_size) (Some b)
          | Raised e => Raised e
          | Hung => Hung
          end
      | Raised e => Raised e
      | Hung => Hung
      end
  end.

(** [Tracer.batch] when [self.model] is a [VLLM]. *)
Definition batch (invoker_inputs : list Call) : Result (Call * list (Z * Z)) :=
  match batch_loop invoker_inputs [] 0 None with
  | Returned (batched_input, batch_groups) =>
      Returned (match batched_input with
                | None => Tracer.default_batched_input
                | Some b => b
                end, batch_groups)
  | Raised e => Raised e
  | Hung => Hung
  end.

(** An invocation as a user writes it: no keyword argument is called
    [processed] or [self]. *)
Definition raw (inp : Call) : Prop :=
  has_key "self" (snd inp) = false /\ has_key "processed" (snd inp) = false.

(** The prompts of an invocation, and of a sequence of invocations. *)
Definition prompts_of (inp : Call) : list PyVal := flat_map as_list (fst inp).

Definition all_prompts (invoker_inputs : list Call) : list PyVal :=
  flat_map prompts_of invoker_inputs.

(** The sampling parameters of invocation number [g]: one object per
    prompt, made from the invocation's keyword arguments and carrying [g]. *)
Definition params_of (g : Z) (inp : Call) : list PyVal :=
  map (fun _ => NNsightSamplingParams
                  (set_item "invoker_group" (PyInt g) (snd inp)))
      (prompts_of inp).

Fixpoint all_params (g : Z) (invoker_inputs : list Call) : list PyVal :=
  match invoker_inputs with
  | [] => []
  | inp :: rest => params_of g inp ++ all_params (g + 1) rest
  end.

(** The batch sizes of raw invocations. *)
Definition sizes (invoker_inputs : list Call) : list Z :=
  map (fun inp => Z.of_nat (List.length (prompts_of inp))) invoker_inputs.

(** Two invocations: two prompts in a list, then a single prompt. *)
Definition two_invocations : list Call :=
  [ ([PyList [PyStr "Hello"; PyStr "World"]], [("temperature", PyInt 0)]);
    ([PyStr "Bye"], []) ].

End VLLM.

(** ** The legacy backend: the blocking request *)

Module LegacyBlocking.
Import Remote.

(** The [while True] loop of the legacy [blocking_request]: every message
    is handled, and the loop is left after a Completed one. *)
Fixpoint receive_loop (env : Env) (self : RemoteBackend) (object : GraphRef)
    (messages : list ResponseModel) : M unit :=
  match messages with
  | [] => hang
  | response :: rest =>
      emit (EvReceive response) ;;;
      Legacy.handle_response env self object response ;;;
      if Legacy.is_COMPLETED (status response) then ret tt
      else receive_loop env self object rest
  end.

(** [RemoteBackend.request] followed by [RemoteBackend.blocking_request]:
    [model_key] is what [obj.remote_backend_get_model_key()] returns. *)
Definition blocking_request (env : Env) (self : RemoteBackend)
    (object : GraphRef) (model_key : string) : M unit :=
  emit (EvConnect (ws_address self)) ;;;
  sid <- lift (sio_connect env) ;;
  let request :=
    {| Legacy.object := object; Legacy.request_model_key := model_key;
       Legacy.session_id := Some sid |} in
  Legacy.submit_request env self request ;;;
  receive_loop env self object (sio_messages env).

End LegacyBlocking.

(** ** Streamed values on the wire (schema/Request.py) *)

Module Request.
Import Remote.

(** [data: bytes | Dict] *)
Inductive Wire : Type :=
| WireBytes (b : bytes)
| WireDict (d : list (string * PyVal)).

(** What [StreamValueModel] relies on: pydantic's own serialization of the
    model into a mapping ([handler(self)]), [msgspec.json], [zlib], and
    [try_deserialize] with its handler. *)
Record Codecs : Type := {
  dump : PyVal -> list (string * PyVal);
  msgspec_encode : list (string * PyVal) -> bytes;
  msgspec_decode : bytes -> Result (list (string * PyVal));
  compress : bytes -> bytes;
  decompress : bytes -> Result bytes;
  try_deserialize : PyVal -> Result PyVal
}.

(** [d[key]], if the key is there. *)
Fixpoint field (key : string) (d : list (string * PyVal)) : option PyVal :=
  match d with
  | [] => None
  | (k, v) :: rest => if String.eqb k key then Some v else field key rest
  end.

(** [StreamValueModel.serialize_model]: dump, encode, compress. *)
Definition serialize_model (c : Codecs) (value : PyVal) : bytes :=
  let data := dump c value in
  let data := msgspec_encode c data in
  compress c data.

(** [StreamValueModel.deserialize(data, model, _msgspec, _zlib)]: the two
    codecs want bytes, the model wants a mapping with the field [value]. *)
Definition deserialize (c : Codecs) (data : Wire) (_msgspec _zlib : bool)
    : Result PyVal :=
  let unzipped :=
    if _zlib then
      match data with
      | WireBytes b =>
          match decompress c b with
          | Returned b' => Returned (WireBytes b')
          | Raised e => Raised e
          | Hung => Hung
          end
      | WireDict _ => Raised (TypeError "bytes-like object")
      end
    else Returned data in
  match unzipped with
  | Returned data =>
      let decoded :=
        if _msgspec then
          match data with
          | WireBytes b =>
              match msgspec_decode c b with
              | Returned d => Returned (WireDict d)
              | Raised e => Raised e
              | Hung => Hung
              end
          | WireDict _ => Raised (TypeError "bytes-like object")
          end
        else Returned data in
      match decoded with
      | Returned (WireDict d) =>
          match field "value" d with
          | Some v => try_deserialize c v
          | None => Raised (ValueError "value")
          end
      | Returned (WireBytes _) => Raised (TypeError "mapping")
      | Raised e => Raised e
      | Hung => Hung
      end
  | Raised e => Raised e
  | Hung => Hung
  end.

(** Codecs for the examples: compression puts one byte in front, the
    encoder writes integers as one byte and anything else as nothing. *)
Definition toy : Codecs :=
  {| dump := fun v => [("value", v)];
     msgspec_encode := fun d =>
       match field "value" d with
       | Some (PyInt n) =>
           match Byte.of_nat (Z.to_nat n) with
           | Some b => [x01; b]
           | None => []
           end
       | _ => []
       end;
     msgspec_decode := fun b =>
       match b with
       | [_; n] => Returned [("value", PyInt (Z.of_nat (Byte.to_nat n)))]
       | _ => Raised (DecodeError "json")
       end;
     compress := fun b => x78 :: b;
     decompress := fun b =>
       match b with
       | x78 :: rest => Returned rest
       | _ => Raised (DecodeError "zlib")
       end;
     try_deserialize := fun v => Returned v |}.

End Request.

(** ** Vocabulary for stating what the client does *)

Module Observe.
Import Remote.

(** [m] keeps [R] when every run of [m] relates the world it starts in to
    the world it leaves, whatever its result. *)
Definition keeps (R : World -> World -> Prop) {A} (m : M A) : Prop :=
  forall w, R w (snd (m w)).

(** The trace only grows, by events satisfying [P]. *)
Definition grows_by (P : Event -> Prop) (w w' : World) : Prop :=
  exists evs, trace w' = trace w ++ evs /\ Forall P evs.

(** No graph object is touched or created. *)
Definition same_heap (w w' : World) : Prop := heap w' = heap w.

(** The first [n] graph objects are untouched. *)
Definition same_below (n : nat) (w w' : World) : Prop :=
  firstn n (heap w') = firstn n (heap w).

(** The configuration, in memory and as saved, is untouched. *)
Definition same_config (w w' : World) : Prop :=
  CONFIG w' = CONFIG w /\ saved_JOB_ID w' = saved_JOB_ID w.

(** The relations that can be chained along a computation. *)
Class Preorder (R : World -> World -> Prop) : Prop := {
  pre_refl : forall w, R w w;
  pre_trans : forall w1 w2 w3, R w1 w2 -> R w2 w3 -> R w1 w3
}.

(** The world after the events [evs] have happened. *)
Definition logged (w : World) (evs : list Event) : World :=
  {| heap := heap w; CONFIG := CONFIG w; saved_JOB_ID := saved_JOB_ID w;
     trace := trace w ++ evs |}.

(** What the progress bar is told for one chunk. *)
Definition progress (data : bytes) : Event :=
  EvProgress (Z.of_nat (List.length data)).

(** The url a result is streamed from. *)
Definition result_url (self : RemoteBackend) (id : string) : string :=
  address self ++ "/result/" ++ id.

(** The world in which graph object [g] holds [nodes]. *)
Definition with_graph (w : World) (g : GraphRef) (nodes : Graph) : World :=
  {| heap := store (heap w) g nodes; CONFIG := CONFIG w;
     saved_JOB_ID := saved_JOB_ID w; trace := trace w |}.

(** The cached value of the node called [key], if there is such a node. *)
Definition value_of (key : string) (nodes : Graph) : option (option PyVal) :=
  option_map value (find (has_name key) nodes).

(** The value a payload ends up giving to [key]: its last entry for it. *)
Fixpoint final (payload : RESULT) (key : string) : option PyVal :=
  match payload with
  | [] => None
  | (k, v) :: rest =>
      match final rest key with
      | Some x => Some x
      | None => if String.eqb k key then Some v else None
      end
  end.

(** The world after a Stream message has been logged and its dependencies
    injected into graph [g]. *)
Definition injected (w : World) (response : ResponseModel) (g : GraphRef)
    (dependencies : RESULT) : World :=
  with_graph (logged w [EvLog response; EvInject g dependencies]) g
    (fst (inject_nodes dependencies (nth g (heap w) []))).

(** The result downloads among some events, by url, oldest first. *)
Fixpoint downloads (evs : list Event) : list string :=
  match evs with
  | [] => []
  | EvGetResult url :: rest => url :: downloads rest
  | _ :: rest => downloads rest
  end.

(** Printing to the user. *)
Definition is_print (ev : Event) : Prop :=
  match ev with EvPrint _ => True | _ => False end.

(** Queued and Running carry no payload; with Stream they do not end a job. *)
Definition informational (response : ResponseModel) : Prop :=
  status response = QUEUED \/ status response = RUNNING.

Definition nonterminal (response : ResponseModel) : Prop :=
  status response = QUEUED \/ status response = RUNNING
  \/ status response = STREAM.

(** What the loop logs for a run of informational messages. *)
Definition received (messages : list ResponseModel) : list Event :=
  flat_map (fun m => [EvReceive m; EvLog m]) messages.

(** The events of a status poll: the request for the status, the log line,
    the download of a result, and the saving of the configuration. *)
Definition polling (ev : Event) : Prop :=
  match ev with
  | EvGetResponse _ | EvLog _ | EvGetResult _ | EvProgress _ | EvSave _ => True
  | _ => False
  end.

(** The url a job's status is polled at. *)
Definition status_url (self : RemoteBackend) : string :=
  address self ++ "/response/" ++ show_job_id (job_id self).

(** The world once [CONFIG.API.JOB_ID = None] and [CONFIG.save()] have run. *)
Definition cleared (w : World) : World :=
  snd (save (snd (set_JOB_ID None w))).

(** Events that serialize a graph or submit it to the server. *)
Definition submission (ev : Event) : Prop :=
  match ev with
  | EvSerialize _ | EvPost _ _ _ | EvCopy _ _ | EvPrune _ _ | EvConnect _ => True
  | _ => False
  end.

(** What the loop of [preprocess] leaves of a list of nodes. *)
Fixpoint pruned (env : Env) (fuel cursor : nat) (nodes : Graph) : Graph :=
  match nth_error nodes cursor with
  | None => nodes
  | Some node =>
      match fuel with
      | O => nodes
      | S fuel' =>
          pruned env fuel' (S cursor)
            (if is_LocalContext (target node) then prune env node nodes
             else nodes)
      end
  end.

(** The prunings recorded for the graph object [new_graph]. *)
Definition prunes (new_graph : GraphRef) (ev : Event) : Prop :=
  exists node, ev = EvPrune new_graph node /\ target node = LocalContext.

(** What [serialize] encodes, and the headers it builds. *)
Definition encoded (env : Env) (self : RemoteBackend) (nodes : Graph)
    : Result (bytes * list (string * string)) :=
  let squeeze := fun data => if zlib self then zlib_compress env data else data in
  let headers := [ ("model_key", model_key self); ("format", format self);
                   ("zlib", str_bool (zlib self)) ] in
  if String.eqb (format self) "json"
  then Returned (squeeze (json_encode env nodes), headers)
  else if String.eqb (format self) "pt"
  then Returned (squeeze (torch_save env nodes), headers)
  else Raised (UnboundLocalError "data").


End Observe.

(** ** Vocabulary for the result values written into a graph *)

Module ObserveValues.
Import Remote Observe.

(** What a payload makes of one node: the last value it gives the node's
    name, if it names the node at all. *)
Definition updated (payload : RESULT) (n : Node) : Node :=
  match final payload (name n) with
  | Some v => set_value v n
  | None => n
  end.

(** Every key of the payload is the name of a node. *)
Definition known (payload : RESULT) (nodes : Graph) : Prop :=
  Forall (fun entry => existsb (has_name (fst entry)) nodes = true) payload.

(** The bytes the progress bar has been told of. *)
Fixpoint reported (evs : list Event) : Z :=
  match evs with
  | [] => 0
  | EvProgress n :: rest => n + reported rest
  | _ :: rest => reported rest
  end.

(** The requests posted among some events, oldest first. *)
Fixpoint posts (evs : list Event)
    : list (string * bytes * list (string * string)) :=
  match evs with
  | [] => []
  | EvPost url body headers :: rest => (url, body, headers) :: posts rest
  | _ :: rest => posts rest
  end.

(** The messages taken from the websocket among some events. *)
Fixpoint receipts (evs : list Event) : list ResponseModel :=
  match evs with
  | [] => []
  | EvReceive r :: rest => r :: receipts rest
  | _ :: rest => receipts rest
  end.

(** [headers[key]], if the key is there. *)
Fixpoint header (key : string) (headers : list (string * string))
    : option string :=
  match headers with
  | [] => None
  | (k, v) :: rest => if String.eqb k key then Some v else header key rest
  end.

(** Events that are not a posted request, not a message taken from the
    websocket, not a saving of the configuration. *)
Definition not_post (ev : Event) : Prop :=
  match ev with EvPost _ _ _ => False | _ => True end.

Definition not_receive (ev : Event) : Prop :=
  match ev with EvReceive _ => False | _ => True end.

Definition not_save (ev : Event) : Prop := forall j, ev <> EvSave j.

End ObserveValues.

(** ** Further concrete backends and replies *)

Module MoreExamples.
Import Remote.

(** A configuration asking for the format the specification calls binary. *)
Definition binary_config : Config :=
  {| HOST := "ndif.dev"; SSL := true; ZLIB := true; FORMAT := "binary";
     APIKEY := "key"; JOB_ID := None |}.

Definition binary_backend : RemoteBackend :=
  init binary_config "model" None false None None "".

(** A server that refuses the submission. *)
Definition refused : HttpResponse :=
  {| status_code := 503; json := Examples.queued;
     reason := "Service Unavailable"; detail := "no such model" |}.

Definition refusing_env : Env :=
  {| sio_connect := Returned "sid-1";
     sio_messages := [Examples.completed_inline];
     post_reply := refused;
     get_reply := fun _ => refused;
     result_stream := fun _ => Examples.empty_stream;
     torch_load := fun _ => Returned [("b", PyInt 10)];
     response_str := fun r => id r;
     json_encode := fun _ => [x7b; x7d];
     torch_save := fun _ => [x80];
     zlib_compress := fun b => b;
     execute := fun _ nodes => Returned nodes;
     prune := Examples.drop_node |}.

(** A Stream message naming a node index the three-node graph does not
    have. *)
Definition stream_far : ResponseModel :=
  Examples.message STREAM (StreamData 7 []).

End MoreExamples.

(** ** Vocabulary for what the preprocessing prunes *)

Module ObservePrune.
Import Remote.

(** The local-only coordination nodes among some nodes, in order. *)
Definition local_nodes (nodes : Graph) : Graph :=
  filter (fun n => is_LocalContext (target n)) nodes.


(** The nodes [LocalContext.prune] was applied to among some events, oldest
    first. *)
Fixpoint pruned_nodes (evs : list Event) : list Node :=
  match evs with
  | [] => []
  | EvPrune _ node :: rest => node :: pruned_nodes rest
  | _ :: rest => pruned_nodes rest
  end.


End ObservePrune.

(** ** Graphs and collaborators for the pruning *)

Module PruneExamples.
Import Remote.








End PruneExamples.

(** ** Reasoning about client code: relations kept by every step *)

Module Steps.
Import Remote Observe.

#[export] Instance grows_by_preorder P : Preorder (grows_by P).
Proof.
  split.
  - intros w. exists []. now rewrite app_nil_r.
  - intros w1 w2 w3 (e1 & H1 & F1) (e2 & H2 & F2).
    exists (e1 ++ e2). rewrite H2, H1, app_assoc. split; [reflexivity|].
    apply Forall_app; split; assumption.
Qed.

#[export] Instance same_heap_preorder : Preorder same_heap.
Proof.
  split; unfold same_heap; [reflexivity | intros; congruence].
Qed.

#[export] Instance same_below_preorder n : Preorder (same_below n).
Proof.
  split; unfold same_below; [reflexivity | intros; congruence].
Qed.

#[export] Instance same_config_preorder : Preorder same_config.
Proof.
  split; unfold same_config; [now split | intros ? ? ? [] []; split; congruence].
Qed.

Section Rules.
Context (R : World -> World -> Prop) `{!Preorder R}.

Lemma keeps_ret {A} (a : A) : keeps R (ret a).
Proof. intros w; apply pre_refl. Qed.

Lemma keeps_raise {A} e : keeps R (@raise A e).
Proof. intros w; apply pre_refl. Qed.

Lemma keeps_hang {A} : keeps R (@hang A).
Proof. intros w; apply pre_refl. Qed.

Lemma keeps_lift {A} (r : Result A) : keeps R (lift r).
Proof. intros w; apply pre_refl. Qed.

Lemma keeps_read g : keeps R (read_graph g).
Proof. intros w; apply pre_refl. Qed.

Lemma keeps_bind {A B} (m : M A) (k : A -> M B) :
  keeps R m -> (forall a, keeps R (k a)) -> keeps R (bind m k).
Proof.
  intros Hm Hk w. unfold bind. specialize (Hm w).
  destruct (m w) as [[a| e |] w1]; simpl in *; try assumption.
  eapply pre_trans; [exact Hm | apply Hk].
Qed.

Lemma keeps_try {A} (body : M A) (handler : Exn -> M A) :
  keeps R body -> (forall e, keeps R (handler e)) ->
  keeps R (try_except body handler).
Proof.
  intros Hb Hh w. unfold try_except. specialize (Hb w).
  destruct (body w) as [[a| e |] w1]; simpl in *; try assumption.
  eapply pre_trans; [exact Hb | apply Hh].
Qed.
End Rules.

(** Primitive steps, relation by relation. *)

Lemma emit_grows (P : Event -> Prop) ev : P ev -> keeps (grows_by P) (emit ev).
Proof. intros H w. exists [ev]. split; [reflexivity | now constructor]. Qed.

Lemma write_grows P g nodes : keeps (grows_by P) (write_graph g nodes).
Proof. intros w. exists []. simpl. now rewrite app_nil_r. Qed.

Lemma alloc_grows P nodes : keeps (grows_by P) (alloc_graph nodes).
Proof. intros w. exists []. simpl. now rewrite app_nil_r. Qed.

Lemma set_JOB_ID_grows P j : keeps (grows_by P) (set_JOB_ID j).
Proof. intros w. exists []. simpl. now rewrite app_nil_r. Qed.

Lemma save_grows (P : Event -> Prop) :
  (forall j, P (EvSave j)) -> keeps (grows_by P) save.
Proof. intros H w. exists [EvSave (JOB_ID (CONFIG w))]. split; [reflexivity | auto]. Qed.

Lemma emit_same_heap ev : keeps same_heap (emit ev).
Proof. intros w; reflexivity. Qed.

Lemma set_JOB_ID_same_heap j : keeps same_heap (set_JOB_ID j).
Proof. intros w; reflexivity. Qed.

Lemma save_same_heap : keeps same_heap save.
Proof. intros w; reflexivity. Qed.

Lemma emit_same_config ev : keeps same_config (emit ev).
Proof. intros w; split; reflexivity. Qed.

Lemma write_same_config g nodes : keeps same_config (write_graph g nodes).
Proof. intros w; split; reflexivity. Qed.

Lemma alloc_same_config nodes : keeps same_config (alloc_graph nodes).
Proof. intros w; split; reflexivity. Qed.




Lemma nth_store_same {A} (l : list A) i x d :
  (i < List.length l)%nat -> nth i (store l i x) d = x.
Proof.
  revert i; induction l as [|y l IH]; intros [|i] H; simpl in *; try lia.
  - reflexivity.
  - apply IH. lia.
Qed.

Lemma nth_store_other {A} (l : list A) i j x d :
  i <> j -> nth j (store l i x) d = nth j l d.
Proof.
  revert i j; induction l as [|y l IH]; intros [|i] [|j] H; simpl;
    try reflexivity; try congruence.
  apply IH. congruence.
Qed.

Lemma length_store {A} (l : list A) i x :
  List.length (store l i x) = List.length l.
Proof.
  revert i; induction l as [|y l IH]; intros [|i]; simpl; auto.
Qed.

End Steps.

(** ** Equations of the client's building blocks *)

Module RemoteLemmas.
Import Remote Observe Steps.

Lemma logged_nil w : logged w [] = w.
Proof. destruct w; unfold logged; simpl. now rewrite app_nil_r. Qed.

Lemma logged_logged w a b : logged (logged w a) b = logged w (a ++ b).
Proof. unfold logged; simpl. now rewrite app_assoc. Qed.

Lemma emit_eq ev w : emit ev w = (Returned tt, logged w [ev]).
Proof. reflexivity. Qed.

Lemma iter_content_eq chunks :
  forall result_bytes w,
    iter_content chunks result_bytes w
    = (Returned (result_bytes ++ List.concat chunks), logged w (map progress chunks)).
Proof.
  induction chunks as [|data rest IH]; intros buf w; simpl.
  - now rewrite app_nil_r, logged_nil.
  - unfold bind. rewrite emit_eq, IH, logged_logged, <- app_assoc.
    reflexivity.
Qed.

Lemma download_eq env self id w :
  download env self id w
  = match content_length (result_stream env id) with
    | NoHeader =>
        (Raised (KeyError "content-length"),
         logged w [EvGetResult (result_url self id)])
    | BadHeader text =>
        (Raised (ValueError text), logged w [EvGetResult (result_url self id)])
    | Declared _ =>
        let w' := logged w (EvGetResult (result_url self id)
                            :: map progress (chunks (result_stream env id))) in
        match ending (result_stream env id) with
        | Exhausted => (Returned (List.concat (chunks (result_stream env id))), w')
        | Dropped e => (Raised e, w')
        end
    end.
Proof.
  unfold download, bind. rewrite emit_eq.
  destruct (content_length (result_stream env id)); try reflexivity.
  rewrite iter_content_eq, logged_logged. simpl.
  destruct (ending (result_stream env id)); reflexivity.
Qed.

Lemma inject_eq g payload w :
  inject (Some g) payload w
  = let r := inject_nodes payload (nth g (heap w) []) in
    (match snd r with None => Returned tt | Some e => Raised e end,
     with_graph (logged w [EvInject g payload]) g (fst r)).
Proof.
  unfold inject, bind. rewrite emit_eq. unfold read_graph. simpl.
  destruct (inject_nodes payload (nth g (heap w) [])) as [nodes' [e|]];
    reflexivity.
Qed.

Lemma graph_node_eq g i w :
  graph_node (Some g) i w
  = (match py_index (nth g (heap w) []) i with
     | Some n => Returned n
     | None => Raised IndexError
     end, w).
Proof.
  unfold graph_node, bind, read_graph.
  destruct (py_index (nth g (heap w) []) i); reflexivity.
Qed.

Lemma node_execute_eq env g node w :
  node_execute env g node w
  = let w1 := logged w [EvExecute g (index node)] in
    match execute env node (nth g (heap w) []) with
    | Returned nodes' => (Returned tt, with_graph w1 g nodes')
    | Raised e => (Raised e, w1)
    | Hung => (Hung, w1)
    end.
Proof.
  unfold node_execute, bind, lift, read_graph. rewrite emit_eq. simpl.
  destruct (execute env node (nth g (heap w) [])); reflexivity.
Qed.

Lemma has_name_set_value key v n : has_name key (set_value v n) = has_name key n.
Proof. reflexivity. Qed.

Lemma existsb_overwrite key k v nodes :
  existsb (has_name key) (overwrite k v nodes) = existsb (has_name key) nodes.
Proof.
  induction nodes as [|n rest IH]; simpl; [reflexivity|].
  destruct (has_name k n); simpl; [reflexivity | now rewrite IH].
Qed.

Lemma length_overwrite k v nodes :
  List.length (overwrite k v nodes) = List.length nodes.
Proof.
  induction nodes as [|n rest IH]; simpl; [reflexivity|].
  destruct (has_name k n); simpl; auto.
Qed.

Lemma value_of_overwrite_same k v nodes :
  existsb (has_name k) nodes = true ->
  value_of k (overwrite k v nodes) = Some (Some v).
Proof.
  unfold value_of. induction nodes as [|n rest IH]; simpl; [discriminate|].
  destruct (has_name k n) eqn:E; simpl.
  - rewrite has_name_set_value, E. reflexivity.
  - rewrite E. exact IH.
Qed.

Lemma value_of_overwrite_other key k v nodes :
  String.eqb k key = false ->
  value_of key (overwrite k v nodes) = value_of key nodes.
Proof.
  intros Hne. unfold value_of.
  induction nodes as [|n rest IH]; simpl; [reflexivity|].
  destruct (has_name k n) eqn:E; simpl.
  - rewrite has_name_set_value.
    assert (has_name key n = false) as ->; [|reflexivity].
    unfold has_name in *. apply String.eqb_eq in E. rewrite <- E.
    rewrite String.eqb_sym. exact Hne.
  - destruct (has_name key n); [reflexivity | exact IH].
Qed.

(** After an injection without fault every key of the payload resolves to
    the value the payload gives it, and every other node value is as before. *)
Lemma inject_nodes_values payload :
  forall nodes nodes',
    inject_nodes payload nodes = (nodes', None) ->
    forall key,
      value_of key nodes'
      = match final payload key with
        | Some v => Some (Some v)
        | None => value_of key nodes
        end.
Proof.
  induction payload as [|[k v] rest IH]; intros nodes nodes' H key; simpl in *.
  - inversion H; reflexivity.
  - destruct (existsb (has_name k) nodes) eqn:E; [|discriminate].
    rewrite (IH _ _ H key).
    destruct (final rest key); [reflexivity|].
    destruct (String.eqb k key) eqn:Ek.
    + apply String.eqb_eq in Ek; subst key.
      now apply value_of_overwrite_same.
    + now apply value_of_overwrite_other.
Qed.

Lemma inject_nodes_length payload :
  forall nodes, List.length (fst (inject_nodes payload nodes)) = List.length nodes.
Proof.
  induction payload as [|[k v] rest IH]; intros nodes; simpl; [reflexivity|].
  destruct (existsb (has_name k) nodes); [|reflexivity].
  now rewrite IH, length_overwrite.
Qed.

End RemoteLemmas.
(** ** Properties of the batch planner *)

Module TracerFacts.
Import Tracer.

Lemma batch_loop_groups model inputs :
  forall acc start b,
    snd (batch_loop model inputs acc start b)
    = acc ++ groups_from start (lengths model inputs).
Proof.
  induction inputs as [|inp rest IH]; intros acc start b; simpl.
  - now rewrite app_nil_r.
  - destruct (_prepare_input model inp) as [prepared size] eqn:E; simpl.
    rewrite IH, <- app_assoc. reflexivity.
Qed.

Lemma batch_groups_spec model inputs :
  snd (batch model inputs) = groups_from 0 (lengths model inputs).
Proof.
  unfold batch.
  pose proof (batch_loop_groups model inputs [] 0 None) as H.
  destruct (batch_loop model inputs [] 0 None) as [b g]; simpl in *.
  exact H.
Qed.

Lemma groups_from_length start ls :
  List.length (groups_from start ls) = List.length ls.
Proof.
  revert start; induction ls as [|l rest IH]; intros start; simpl; auto.
Qed.

Lemma groups_from_nth ls :
  forall start i l,
    nth_error ls i = Some l ->
    nth_error (groups_from start ls) i = Some (start + total (firstn i ls), l).
Proof.
  induction ls as [|l0 rest IH]; intros start i l H.
  - destruct i; discriminate.
  - destruct i as [|i]; simpl in *.
    + inversion H; subst. now rewrite Z.add_0_r.
    + rewrite (IH _ _ _ H). f_equal. f_equal. lia.
Qed.

Lemma groups_from_nth_inv ls :
  forall start i s l,
    nth_error (groups_from start ls) i = Some (s, l) ->
    nth_error ls i = Some l /\ s = start + total (firstn i ls).
Proof.
  induction ls as [|l0 rest IH]; intros start i s l H.
  - destruct i; discriminate.
  - destruct i as [|i]; simpl in *.
    + inversion H; subst. split; [reflexivity | lia].
    + destruct (IH _ _ _ _ H) as [H1 H2]. split; [exact H1 | lia].
Qed.

Lemma total_nonneg ls : Forall (fun l => 0 <= l) ls -> 0 <= total ls.
Proof. induction 1; simpl; lia. Qed.

Lemma nonneg_firstn i ls :
  Forall (fun l => 0 <= l) ls -> Forall (fun l => 0 <= l) (firstn i ls).
Proof.
  intros H; revert i; induction H; intros [|i]; simpl; auto.
Qed.

Lemma nonneg_skipn i ls :
  Forall (fun l => 0 <= l) ls -> Forall (fun l => 0 <= l) (skipn i ls).
Proof.
  intros H; revert i; induction H; intros [|i]; simpl; auto.
Qed.

Lemma total_firstn_skipn i ls :
  total ls = total (firstn i ls) + total (skipn i ls).
Proof.
  revert i; induction ls as [|l rest IH]; intros [|i]; simpl; try lia.
  rewrite (IH i). lia.
Qed.

Lemma total_firstn_S ls i l :
  nth_error ls i = Some l ->
  total (firstn (S i) ls) = total (firstn i ls) + l.
Proof.
  revert i; induction ls as [|l0 rest IH]; intros [|i] H; simpl in *;
    try discriminate.
  - inversion H; lia.
  - specialize (IH _ H). simpl in IH. lia.
Qed.

Lemma total_firstn_mono ls :
  Forall (fun l => 0 <= l) ls ->
  forall i j, (i <= j)%nat -> total (firstn i ls) <= total (firstn j ls).
Proof.
  induction 1 as [|l rest Hl Hrest IH]; intros i j Hij.
  - rewrite !firstn_nil. lia.
  - destruct i as [|i]; destruct j as [|j]; simpl; try lia.
    + pose proof (total_nonneg (firstn j rest) (nonneg_firstn j rest Hrest)) as Hn.
      simpl in Hn. lia.
    + assert (i <= j)%nat as Hij' by lia. specialize (IH i j Hij'). lia.
Qed.

Lemma total_firstn_le ls :
  Forall (fun l => 0 <= l) ls ->
  forall i, total (firstn i ls) <= total ls.
Proof.
  intros H i. rewrite (total_firstn_skipn i ls).
  pose proof (total_nonneg (skipn i ls) (nonneg_skipn i ls H)). lia.
Qed.

(** Some group holds every position below the total. *)
Lemma groups_from_cover ls :
  Forall (fun l => 0 <= l) ls ->
  forall start k, start <= k < start + total ls ->
    exists i s l, nth_error (groups_from start ls) i = Some (s, l)
                  /\ s <= k < s + l.
Proof.
  induction 1 as [|l rest Hl Hrest IH]; intros start k Hk; simpl in *.
  - lia.
  - destruct (Z_lt_dec k (start + l)) as [Hlt|Hge].
    + exists 0%nat, start, l. split; [reflexivity | lia].
    + destruct (IH (start + l) k) as (i & s & l' & Hn & Hr); [lia|].
      exists (S i), s, l'. split; assumption.
Qed.

(** C1: for invocations whose prepare step reports the lengths [L1..Ln],
    [Tracer.batch] returns exactly [n] groups in submission order, the i-th
    being [(L1 + ... + L(i-1), Li)]; each group starts where the previous one
    ends; an invocation of length 0 keeps its own entry of length 0; and, the
    lengths being lengths (not negative), the groups do not overlap and the
    positions they hold are exactly those of [0, L1 + ... + Ln). *)
Theorem batch_groups_offsets (model : Model) (invoker_inputs : list Call) :
  let ls := lengths model invoker_inputs in
  let groups := snd (batch model invoker_inputs) in
  List.length groups = List.length invoker_inputs
  /\ (forall i l, nth_error ls i = Some l ->
        nth_error groups i = Some (total (firstn i ls), l))
  /\ (forall i s l s' l',
        nth_error groups i = Some (s, l) ->
        nth_error groups (S i) = Some (s', l') -> s' = s + l)
  /\ (forall i, nth_error ls i = Some 0 ->
        exists s, nth_error groups i = Some (s, 0))
  /\ (Forall (fun l => 0 <= l) ls ->
        (forall i j s l s' l', (i < j)%nat ->
           nth_error groups i = Some (s, l) ->
           nth_error groups j = Some (s', l') -> s + l <= s')
        /\ (forall k, 0 <= k < total ls <->
              exists i s l, nth_error groups i = Some (s, l) /\ s <= k < s + l)).
Proof.
  intros ls groups. subst groups. rewrite batch_groups_spec. fold ls.
  split; [|split; [|split; [|split]]].
  - rewrite groups_from_length. unfold ls, lengths. apply length_map.
  - intros i l H. now rewrite (groups_from_nth ls 0 i l H).
  - intros i s l s' l' H1 H2.
    apply groups_from_nth_inv in H1 as [H1 ->].
    apply groups_from_nth_inv in H2 as [H2 ->].
    rewrite (total_firstn_S ls i l H1). lia.
  - intros i H. eexists. now rewrite (groups_from_nth ls 0 i 0 H).
  - intros Hpos. split.
    + intros i j s l s' l' Hij H1 H2.
      apply groups_from_nth_inv in H1 as [H1 ->].
      apply groups_from_nth_inv in H2 as [H2 ->].
      pose proof (total_firstn_mono ls Hpos (S i) j Hij) as Hm.
      rewrite (total_firstn_S ls i l H1) in Hm. lia.
    + intros k; split.
      * intros Hk. apply groups_from_cover; [assumption | lia].
      * intros (i & s & l & Hn & Hr).
        apply groups_from_nth_inv in Hn as [Hn ->].
        pose proof (total_nonneg _ (nonneg_firstn i ls Hpos)) as H0.
        pose proof (total_firstn_le ls Hpos (S i)) as H1.
        rewrite (total_firstn_S ls i l Hn) in H1. lia.
Qed.

Lemma batch_groups_offsets_witness :
  Forall (fun l => 0 <= l) (lengths prompt_model three_invocations)
  /\ snd (batch prompt_model three_invocations) = [(0, 2); (2, 0); (2, 1)]
  /\ (forall k, 0 <= k < 3 <->
        exists i s l,
          nth_error (snd (batch prompt_model three_invocations)) i = Some (s, l)
          /\ s <= k < s + l).
Proof.
  assert (Forall (fun l => 0 <= l) (lengths prompt_model three_invocations))
    as Hpos by (repeat constructor; simpl; lia).
  split; [exact Hpos | split; [reflexivity |]].
  destruct (batch_groups_offsets prompt_model three_invocations)
    as (_ & _ & _ & _ & Hcover).
  destruct (Hcover Hpos) as [_ Hk]. exact Hk.
Defined.



End TracerFacts.

(** ** The chunked download *)

Module DownloadFacts.
Import Remote Observe Steps RemoteLemmas.

Lemma get_result_eq env self id w :
  get_result env self id w
  = match download env self id w with
    | (Returned result_bytes, w') => (torch_load env result_bytes, w')
    | (Raised e, w') => (Raised e, w')
    | (Hung, w') => (Hung, w')
    end.
Proof. reflexivity. Qed.

Lemma legacy_completed_eq env self object response w :
  status response = COMPLETED ->
  forall e,
    fst (download env self (id response) (logged w [EvLog response])) = Raised e ->
    fst (Legacy.handle_response env self object response w) = Raised e.
Proof.
  intros Hs e He. unfold Legacy.handle_response, bind.
  rewrite emit_eq, Hs.
  destruct (download env self (id response) (logged w [EvLog response]))
    as [[b | e' |] w']; simpl in *; congruence.
Qed.

(** C6: the chunked download of [get_result] (and of the legacy
    [handle_response]) fails when the length header is absent, and fails
    when the connection drops while the body is read, whatever has been
    received by then; otherwise its buffer is every received chunk, in
    arrival order, and that buffer is what is decoded; for a declared length
    of 0 and an empty stream the buffer is empty and the download returns. *)
Theorem download_contract (env : Env) (self : RemoteBackend) (id : string)
    (w : World) :
  let stream := result_stream env id in
  (content_length stream = NoHeader ->
     fst (download env self id w) = Raised (KeyError "content-length")
     /\ fst (get_result env self id w) = Raised (KeyError "content-length")
     /\ forall object response,
          status response = COMPLETED -> Remote.id response = id ->
          fst (Legacy.handle_response env self object response w)
          = Raised (KeyError "content-length"))
  /\ (forall total_size e,
        content_length stream = Declared total_size ->
        ending stream = Dropped e ->
        fst (download env self id w) = Raised e
        /\ fst (get_result env self id w) = Raised e
        /\ forall object response,
             status response = COMPLETED -> Remote.id response = id ->
             fst (Legacy.handle_response env self object response w) = Raised e)
  /\ (forall total_size,
        content_length stream = Declared total_size ->
        ending stream = Exhausted ->
        fst (download env self id w) = Returned (List.concat (chunks stream))
        /\ fst (get_result env self id w)
           = torch_load env (List.concat (chunks stream)))
  /\ (content_length stream = Declared 0 ->
      chunks stream = [] ->
      ending stream = Exhausted ->
      fst (download env self id w) = Returned []).
Proof.
  intros stream. subst stream.
  split; [|split; [|split]].
  - intros H. split; [|split].
    + rewrite download_eq, H. reflexivity.
    + rewrite get_result_eq, download_eq, H. reflexivity.
    + intros object response Hs <-. apply legacy_completed_eq; [assumption|].
      rewrite download_eq, H. reflexivity.
  - intros total_size e H He. split; [|split].
    + rewrite download_eq, H, He. reflexivity.
    + rewrite get_result_eq, download_eq, H, He. reflexivity.
    + intros object response Hs <-. apply legacy_completed_eq; [assumption|].
      rewrite download_eq, H, He. reflexivity.
  - intros total_size H He. split.
    + rewrite download_eq, H, He. reflexivity.
    + rewrite get_result_eq, download_eq, H, He. reflexivity.
  - intros H Hc He. rewrite download_eq, H, He, Hc. reflexivity.
Qed.

Lemma download_contract_witness :
  fst (download (Examples.env [] Examples.completed_null Examples.empty_stream)
         Examples.blocking_backend "job-42" (Examples.world None))
  = Returned []
  /\ fst (download
            (Examples.env [] Examples.completed_null Examples.dropped_stream)
            Examples.blocking_backend "job-42" (Examples.world None))
     = Raised (TransportError "connection reset")
  /\ fst (download
            (Examples.env [] Examples.completed_null Examples.headless_stream)
            Examples.blocking_backend "job-42" (Examples.world None))
     = Raised (KeyError "content-length")
  /\ fst (download
            (Examples.env [] Examples.completed_null Examples.three_bytes)
            Examples.blocking_backend "job-42" (Examples.world None))
     = Returned [x61; x62; x63].
Proof.
  split; [|split; [|split]].
  - apply (download_contract
             (Examples.env [] Examples.completed_null Examples.empty_stream));
      reflexivity.
  - eapply (download_contract
              (Examples.env [] Examples.completed_null Examples.dropped_stream));
      reflexivity.
  - apply (download_contract
             (Examples.env [] Examples.completed_null Examples.headless_stream));
      reflexivity.
  - eapply (proj1 (proj1 (proj2 (proj2
              (download_contract
                 (Examples.env [] Examples.completed_null Examples.three_bytes)
                 Examples.blocking_backend "job-42" (Examples.world None)))) 3
              eq_refl eq_refl)).
Defined.

End DownloadFacts.

(** ** Handling one status message *)

Module HandleFacts.
Import Remote Observe Steps RemoteLemmas.

Lemma heap_injected w response g dependencies :
  (g < List.length (heap w))%nat ->
  nth g (heap (injected w response g dependencies)) []
  = fst (inject_nodes dependencies (nth g (heap w) [])).
Proof. intros H. unfold injected; simpl. now apply nth_store_same. Qed.

Lemma stream_eq env self response g w node_index dependencies :
  status response = STREAM ->
  data response = StreamData node_index dependencies ->
  handle_response env self response (Some g) w
  = let w1 := injected w response g dependencies in
    match snd (inject_nodes dependencies (nth g (heap w) [])) with
    | Some e => (Raised e, w1)
    | None =>
        match py_index (nth g (heap w1) []) node_index with
        | None => (Raised IndexError, w1)
        | Some node =>
            let w2 := logged w1 [EvExecute g (index node)] in
            match execute env node (nth g (heap w1) []) with
            | Returned nodes' => (Returned None, with_graph w2 g nodes')
            | Raised e => (Raised e, w2)
            | Hung => (Hung, w2)
            end
        end
    end.
Proof.
  intros Hs Hd. unfold handle_response. rewrite Hs, Hd.
  unfold bind at 1. rewrite emit_eq.
  unfold bind at 1. rewrite inject_eq. cbn zeta.
  replace (with_graph
             (logged (logged w [EvLog response]) [EvInject g dependencies]) g
             (fst (inject_nodes dependencies
                     (nth g (heap (logged w [EvLog response])) []))))
    with (injected w response g dependencies)
    by (unfold injected; now rewrite logged_logged).
  change (heap (logged w [EvLog response])) with (heap w).
  destruct (snd (inject_nodes dependencies (nth g (heap w) []))) as [e|];
    [reflexivity|].
  unfold bind at 1. rewrite graph_node_eq.
  destruct (py_index (nth g (heap (injected w response g dependencies)) [])
              node_index) as [node|]; [|reflexivity].
  unfold bind. rewrite node_execute_eq. cbn zeta.
  destruct (execute env node
              (nth g (heap (injected w response g dependencies)) []));
    reflexivity.
Qed.

(** C7: for a Stream message carrying [(node_index, dependencies)] the
    dependencies are injected into the caller's graph before the node at
    [node_index] is executed: the execution is recorded after the injection,
    it runs on the graph as the injection left it, and in that graph every
    name of the dependencies resolves to the value the message gave it; if
    the injection faults the node is not executed. *)
Theorem stream_injects_before_execute (env : Env) (self : RemoteBackend)
    (response : ResponseModel) (g : GraphRef) (w : World) (node_index : Z)
    (dependencies : RESULT) :
  status response = STREAM ->
  data response = StreamData node_index dependencies ->
  (g < List.length (heap w))%nat ->
  let injection := inject_nodes dependencies (nth g (heap w) []) in
  let outcome := handle_response env self response (Some g) w in
  match snd injection with
  | Some e =>
      fst outcome = Raised e
      /\ trace (snd outcome)
         = trace w ++ [EvLog response; EvInject g dependencies]
  | None =>
      (forall key v, final dependencies key = Some v ->
                     value_of key (fst injection) = Some (Some v))
      /\ match py_index (fst injection) node_index with
         | None =>
             fst outcome = Raised IndexError
             /\ trace (snd outcome)
                = trace w ++ [EvLog response; EvInject g dependencies]
         | Some node =>
             trace (snd outcome)
             = trace w ++ [EvLog response; EvInject g dependencies;
                           EvExecute g (index node)]
             /\ match execute env node (fst injection) with
                | Returned nodes' =>
                    fst outcome = Returned None
                    /\ nth g (heap (snd outcome)) [] = nodes'
                | Raised e => fst outcome = Raised e
                | Hung => fst outcome = Hung
                end
         end
  end.
Proof.
  intros Hs Hd Hg injection outcome. subst outcome.
  rewrite (stream_eq env self response g w node_index dependencies Hs Hd).
  cbn zeta. rewrite heap_injected by assumption. fold injection.
  destruct (snd injection) as [e|] eqn:Hfault.
  - split; [reflexivity|]. unfold injected; simpl. reflexivity.
  - split.
    + intros key v Hk.
      assert (inject_nodes dependencies (nth g (heap w) [])
              = (fst injection, None)) as Hinj.
      { subst injection.
        destruct (inject_nodes dependencies (nth g (heap w) [])) as [n f].
        simpl in *. now subst f. }
      rewrite (inject_nodes_values _ _ _ Hinj key), Hk. reflexivity.
    + destruct (py_index (fst injection) node_index) as [node|].
      * split.
        -- destruct (execute env node (fst injection)); simpl;
             now rewrite <- app_assoc.
        -- destruct (execute env node (fst injection)) as [nodes'| e |];
             try reflexivity.
           split; [reflexivity|]. simpl. apply nth_store_same.
           rewrite length_store. assumption.
      * split; [reflexivity|]. unfold injected; simpl. reflexivity.
Qed.

Lemma stream_injects_before_execute_witness :
  let outcome :=
    handle_response (Examples.env [] Examples.queued Examples.empty_stream)
      Examples.blocking_backend Examples.stream_b (Some 0%nat)
      (Examples.world None) in
  trace (snd outcome)
  = [EvLog Examples.stream_b; EvInject 0%nat [("a", PyInt 5)];
     EvExecute 0%nat 2]
  /\ fst outcome = Returned None
  /\ value_of "a" (nth 0 (heap (snd outcome)) []) = Some (Some (PyInt 5)).
Proof.
  pose proof (stream_injects_before_execute
                (Examples.env [] Examples.queued Examples.empty_stream)
                Examples.blocking_backend Examples.stream_b 0%nat
                (Examples.world None) 2 [("a", PyInt 5)]
                eq_refl eq_refl ltac:(simpl; lia)) as H.
  vm_compute in H. destruct H as (_ & Ht & Hr & _).
  vm_compute. split; [exact Ht | split; [exact Hr | reflexivity]].
Defined.

Lemma downloads_app a b : downloads (a ++ b) = downloads a ++ downloads b.
Proof.
  induction a as [|ev a IH]; simpl; [reflexivity|].
  destruct ev; simpl; now rewrite ?IH.
Qed.

Lemma downloads_progress chunks : downloads (map progress chunks) = [].
Proof. induction chunks; simpl; auto. Qed.

(** Every run of the streamed transfer issues exactly one request for the
    result, keyed by [id]. *)
Lemma download_trace env self id w :
  exists evs,
    trace (snd (download env self id w)) = trace w ++ evs
    /\ downloads evs = [result_url self id].
Proof.
  rewrite download_eq.
  destruct (content_length (result_stream env id)).
  - eexists; split; reflexivity.
  - eexists; split; reflexivity.
  - exists (EvGetResult (result_url self id)
            :: map progress (chunks (result_stream env id))).
    split.
    + destruct (ending (result_stream env id)); reflexivity.
    + simpl. now rewrite downloads_progress.
Qed.

Lemma completed_eq env self response graph w :
  status response = COMPLETED ->
  handle_response env self response graph w
  = match data response with
    | NoData =>
        match download env self (id response) (logged w [EvLog response]) with
        | (Returned result_bytes, w') =>
            (match torch_load env result_bytes with
             | Returned result => Returned (Some (ResultData result))
             | Raised e => Raised e
             | Hung => Hung
             end, w')
        | (Raised e, w') => (Raised e, w')
        | (Hung, w') => (Hung, w')
        end
    | result => (Returned (Some result), logged w [EvLog response])
    end.
Proof.
  intros Hs. unfold handle_response. rewrite Hs. unfold bind at 1.
  rewrite emit_eq. destruct (data response); try reflexivity.
  unfold get_result, lift, bind, ret.
  destruct (download env self (id response) (logged w [EvLog response]))
    as [[b | e |] w']; try reflexivity.
  destruct (torch_load env b); reflexivity.
Qed.

Lemma completed_downloads env self response graph w :
  status response = COMPLETED ->
  exists evs,
    trace (snd (handle_response env self response graph w)) = trace w ++ evs
    /\ downloads evs
       = match data response with
         | NoData => [result_url self (id response)]
         | _ => []
         end.
Proof.
  intros Hs. rewrite (completed_eq _ _ _ _ _ Hs).
  destruct (data response);
    try (exists [EvLog response]; split; reflexivity).
  destruct (download_trace env self (id response) (logged w [EvLog response]))
    as (evs & Ht & Hd).
  exists (EvLog response :: evs). split; [|exact Hd].
  destruct (download env self (id response) (logged w [EvLog response]))
    as [[b | e |] w']; simpl in *; rewrite Ht, <- app_assoc; reflexivity.
Qed.

Lemma legacy_completed_downloads env self object response w :
  status response = COMPLETED ->
  exists evs,
    trace (snd (Legacy.handle_response env self object response w))
    = trace w ++ evs
    /\ downloads evs = [result_url self (id response)].
Proof.
  intros Hs. unfold Legacy.handle_response. rewrite Hs. unfold bind at 1.
  rewrite emit_eq.
  destruct (download_trace env self (id response) (logged w [EvLog response]))
    as (evs & Ht & Hd).
  unfold bind at 1.
  destruct (download env self (id response) (logged w [EvLog response]))
    as [[b | e |] w'] eqn:E; simpl in Ht.
  - unfold bind at 1, lift.
    destruct (torch_load env b) as [result | e |].
    + unfold bind at 1. rewrite emit_eq. unfold bind at 1, read_graph.
      destruct (Legacy.remote_backend_handle_result_value result
                  (nth object (heap (logged w' [EvHandleResultValue result])) []))
        as [nodes' fault].
      exists (EvLog response :: evs ++ [EvHandleResultValue result]).
      split.
      * unfold bind, write_graph.
        destruct fault; simpl; rewrite Ht, <- !app_assoc; reflexivity.
      * simpl. rewrite downloads_app, Hd. reflexivity.
    + exists (EvLog response :: evs). simpl.
      rewrite Ht, <- app_assoc. split; [reflexivity | exact Hd].
    + exists (EvLog response :: evs). simpl.
      rewrite Ht, <- app_assoc. split; [reflexivity | exact Hd].
  - exists (EvLog response :: evs). simpl.
    rewrite Ht, <- app_assoc. split; [reflexivity | exact Hd].
  - exists (EvLog response :: evs). simpl.
    rewrite Ht, <- app_assoc. split; [reflexivity | exact Hd].
Qed.

(** C3, as stated, fails on the legacy backend: a Completed message that
    carries its result inline still triggers a download. *)
Lemma legacy_completed_inline_downloads :
  data Examples.completed_inline <> NoData
  /\ downloads
       (trace (snd (Legacy.handle_response
                      (Examples.env [] Examples.queued Examples.three_bytes)
                      Examples.blocking_backend 0%nat
                      Examples.completed_inline (Examples.world None))))
     = ["https://ndif.dev/result/job-42"].
Proof. split; [discriminate | reflexivity]. Qed.

(** C3 (amended): handling a Completed message, [handle_response] of
    remote.py requests the streamed result exactly once, at the url of the
    job id the message carries, when the message's data is null, and not at
    all when the data is there, which it then returns as it is; the legacy
    [handle_response] requests the streamed result exactly once, at the url
    of that job id, for every Completed message; neither ever requests it
    more than once. *)
Theorem completed_download_once (env : Env) (self : RemoteBackend)
    (response : ResponseModel) (graph : option GraphRef) (object : GraphRef)
    (w : World) :
  status response = COMPLETED ->
  (exists evs,
     trace (snd (handle_response env self response graph w)) = trace w ++ evs
     /\ (data response = NoData ->
           downloads evs = [result_url self (id response)])
     /\ (data response <> NoData ->
           downloads evs = []
           /\ fst (handle_response env self response graph w)
              = Returned (Some (data response)))
     /\ (List.length (downloads evs) <= 1)%nat)
  /\ (exists evs,
        trace (snd (Legacy.handle_response env self object response w))
        = trace w ++ evs
        /\ downloads evs = [result_url self (id response)]).
Proof.
  intros Hs. split.
  - destruct (completed_downloads env self response graph w Hs)
      as (evs & Ht & Hd).
    exists evs. split; [exact Ht|]. split; [|split].
    + intros Hn. now rewrite Hn in Hd.
    + intros Hn. split.
      * destruct (data response); congruence.
      * rewrite (completed_eq _ _ _ _ _ Hs).
        destruct (data response); try reflexivity; congruence.
    + rewrite Hd. destruct (data response); simpl; lia.
  - exact (legacy_completed_downloads env self object response w Hs).
Qed.

Lemma completed_download_once_witness :
  downloads
    (trace (snd (handle_response
                   (Examples.env [] Examples.queued Examples.three_bytes)
                   Examples.blocking_backend Examples.completed_null
                   (Some 0%nat) (Examples.world None))))
  = ["https://ndif.dev/result/job-42"]
  /\ downloads
       (trace (snd (handle_response
                      (Examples.env [] Examples.queued Examples.three_bytes)
                      Examples.blocking_backend Examples.completed_inline
                      (Some 0%nat) (Examples.world None))))
     = [].
Proof.
  split.
  - destruct (completed_download_once
                (Examples.env [] Examples.queued Examples.three_bytes)
                Examples.blocking_backend Examples.completed_null
                (Some 0%nat) 0%nat (Examples.world None) eq_refl)
      as [(evs & Ht & Hnull & _) _].
    rewrite Ht. exact (Hnull eq_refl).
  - destruct (completed_download_once
                (Examples.env [] Examples.queued Examples.three_bytes)
                Examples.blocking_backend Examples.completed_inline
                (Some 0%nat) 0%nat (Examples.world None) eq_refl)
      as [(evs & Ht & _ & Hinline & _) _].
    rewrite Ht. apply Hinline. discriminate.
Defined.

Lemma error_eq env self response g w node_id message :
  status response = NNSIGHT_ERROR ->
  data response = ErrorData node_id message ->
  handle_response env self response (Some g) w
  = match py_index (nth g (heap w) []) node_id with
    | None => (Raised IndexError, logged w [EvLog response])
    | Some error_node =>
        match traceback error_node with
        | None => (Raised (KeyError "traceback"), logged w [EvLog response])
        | Some tb =>
            (Raised (NNsightError message (index error_node)),
             logged w [EvLog response; EvPrint (newline ++ tb)%string])
        end
    end.
Proof.
  intros Hs Hd. unfold handle_response. rewrite Hs, Hd.
  unfold bind at 1. rewrite emit_eq. unfold bind at 1.
  rewrite graph_node_eq.
  change (heap (logged w [EvLog response])) with (heap w).
  destruct (py_index (nth g (heap w) []) node_id) as [n|]; [|reflexivity].
  destruct (traceback n) as [tb|]; [|reflexivity].
  unfold bind. rewrite emit_eq, logged_logged. reflexivity.
Qed.

Lemma error_always_raises env self response graph w :
  status response = NNSIGHT_ERROR ->
  exists e evs,
    handle_response env self response graph w
    = (Raised e, logged w (EvLog response :: evs))
    /\ Forall is_print evs.
Proof.
  intros Hs. destruct graph as [g|].
  - destruct (data response) as [| r | i d | node_id message] eqn:Hd.
    1-3: unfold handle_response; rewrite Hs, Hd; unfold bind; rewrite emit_eq;
         eexists; exists []; split; [reflexivity | constructor].
    rewrite (error_eq _ _ _ _ _ _ _ Hs Hd).
    destruct (py_index (nth g (heap w) []) node_id) as [n|].
    + destruct (traceback n) as [tb|].
      * eexists; exists [EvPrint (newline ++ tb)%string].
        split; [reflexivity | repeat constructor].
      * eexists; exists []; split; [reflexivity | constructor].
    + eexists; exists []; split; [reflexivity | constructor].
  - unfold handle_response; rewrite Hs; unfold bind; rewrite emit_eq.
    eexists; exists []; split; [reflexivity | constructor].
Qed.

Lemma legacy_error_eq env self object response w :
  status response = NNSIGHT_ERROR ->
  Legacy.handle_response env self object response w
  = (Raised (Exception (response_str env response)),
     logged w [EvLog response]).
Proof.
  intros Hs. unfold Legacy.handle_response. rewrite Hs.
  unfold bind. rewrite emit_eq. reflexivity.
Qed.

(** C4, as stated, fails on the legacy backend: for an error status it
    raises, but not the typed error with a node index, and it prints no
    traceback. *)
Lemma legacy_error_is_untyped :
  let outcome :=
    Legacy.handle_response
      (Examples.env [] Examples.queued Examples.empty_stream)
      Examples.blocking_backend 0%nat Examples.failed (Examples.world None) in
  fst outcome = Raised (Exception "job-42")
  /\ (forall message node_index,
        fst outcome <> Raised (NNsightError message node_index))
  /\ (forall text, ~ In (EvPrint text) (trace (snd outcome))).
Proof.
  cbn zeta. split; [reflexivity | split].
  - intros message node_index H. discriminate H.
  - intros text [H | []]. discriminate H.
Qed.

(** C4 (amended): when [handle_response] of remote.py handles an error
    status whose data names a node of the graph it was given, it prints the
    traceback kept with that node and raises [NNsightError] with the
    server's message and that node's index; handling an error status always
    ends in an exception, after nothing but logging and printing (no request
    is sent again); the legacy [handle_response] raises a plain [Exception]
    whose text is the response, after logging it. *)
Theorem error_status_raises (env : Env) (self : RemoteBackend)
    (response : ResponseModel) (graph : option GraphRef) (object : GraphRef)
    (w : World) :
  status response = NNSIGHT_ERROR ->
  (forall g node_id message error_node tb,
     graph = Some g ->
     data response = ErrorData node_id message ->
     py_index (nth g (heap w) []) node_id = Some error_node ->
     traceback error_node = Some tb ->
     handle_response env self response graph w
     = (Raised (NNsightError message (index error_node)),
        logged w [EvLog response; EvPrint (newline ++ tb)%string]))
  /\ (exists e evs,
        handle_response env self response graph w
        = (Raised e, logged w (EvLog response :: evs))
        /\ Forall is_print evs)
  /\ Legacy.handle_response env self object response w
     = (Raised (Exception (response_str env response)),
        logged w [EvLog response]).
Proof.
  intros Hs. split; [|split].
  - intros g node_id message error_node tb -> Hd Hn Ht.
    rewrite (error_eq _ _ _ _ _ _ _ Hs Hd), Hn, Ht. reflexivity.
  - now apply error_always_raises.
  - now apply legacy_error_eq.
Qed.

Lemma error_status_raises_witness :
  handle_response (Examples.env [] Examples.queued Examples.empty_stream)
    Examples.blocking_backend Examples.failed (Some 0%nat)
    (Examples.world None)
  = (Raised (NNsightError "division by zero" 2),
     logged (Examples.world None)
       [EvLog Examples.failed;
        EvPrint (newline ++ "File user.py, line 5")%string]).
Proof.
  apply (proj1 (error_status_raises
                  (Examples.env [] Examples.queued Examples.empty_stream)
                  Examples.blocking_backend Examples.failed (Some 0%nat)
                  0%nat (Examples.world None) eq_refl)
           0%nat 2 "division by zero" Examples.node_b "File user.py, line 5");
    reflexivity.
Defined.

End HandleFacts.

(** ** The blocking receive loop *)

Module LoopFacts.
Import Remote Observe Steps RemoteLemmas HandleFacts.

Lemma receive_loop_cons env self g response rest w :
  receive_loop env self g (response :: rest) w
  = match handle_response env self response (Some g)
            (logged w [EvReceive response]) with
    | (Returned (Some r), w') => (Returned (Some r), w')
    | (Returned None, w') => receive_loop env self g rest w'
    | (Raised e, w') => (Raised e, w')
    | (Hung, w') => (Hung, w')
    end.
Proof.
  simpl. unfold bind at 1. rewrite emit_eq. unfold bind.
  destruct (handle_response env self response (Some g)
              (logged w [EvReceive response])) as [[[r|] | e |] w'];
    reflexivity.
Qed.

Lemma informational_eq env self response graph w :
  informational response ->
  handle_response env self response graph w
  = (Returned None, logged w [EvLog response]).
Proof.
  intros [H | H]; unfold handle_response; rewrite H; unfold bind;
    rewrite emit_eq; reflexivity.
Qed.

Lemma stream_no_result env self response graph w x w' :
  status response = STREAM ->
  handle_response env self response graph w = (Returned x, w') ->
  x = None.
Proof.
  intros Hs H. unfold handle_response in H. rewrite Hs in H.
  unfold bind at 1 in H. rewrite emit_eq in H.
  destruct (data response) as [| r | i d | n m]; try discriminate H.
  { destruct r as [|a [|b [|c r]]]; discriminate H. }
  unfold bind at 1 in H.
  destruct (inject graph d (logged w [EvLog response])) as [[[] | e |] w1];
    try discriminate H.
  unfold bind at 1 in H.
  destruct (graph_node graph i w1) as [[node | e |] w2]; try discriminate H.
  destruct graph as [g|]; [|discriminate H].
  unfold bind in H.
  destruct (node_execute env g node w2) as [[[] | e |] w3];
    try discriminate H.
  unfold ret in H. now inversion H.
Qed.

Lemma receive_loop_informational env self g messages :
  Forall informational messages ->
  forall rest w,
    receive_loop env self g (messages ++ rest) w
    = receive_loop env self g rest (logged w (received messages)).
Proof.
  induction 1 as [|m ms Hm Hms IH]; intros rest w; simpl app.
  - simpl. now rewrite logged_nil.
  - rewrite receive_loop_cons, (informational_eq _ _ _ _ _ Hm), IH.
    rewrite !logged_logged. reflexivity.
Qed.

Lemma receive_loop_needs_terminal env self g messages :
  Forall nonterminal messages ->
  forall w r, fst (receive_loop env self g messages w) <> Returned r.
Proof.
  induction 1 as [|m ms Hm Hms IH]; intros w r.
  - simpl. discriminate.
  - rewrite receive_loop_cons.
    destruct (handle_response env self m (Some g) (logged w [EvReceive m]))
      as [[[x|] | e |] w'] eqn:E; simpl; try discriminate.
    + destruct Hm as [Hm | [Hm | Hm]].
      * rewrite informational_eq in E by (left; exact Hm). discriminate E.
      * rewrite informational_eq in E by (right; exact Hm). discriminate E.
      * apply (stream_no_result _ _ _ _ _ _ _ Hm) in E. discriminate E.
    + apply IH.
Qed.

Lemma get_result_eq_loop env self id w :
  fst (get_result env self id w)
  = match download env self id w with
    | (Returned result_bytes, _) => torch_load env result_bytes
    | (Raised e, _) => Raised e
    | (Hung, _) => Hung
    end.
Proof.
  unfold get_result, bind, lift.
  destruct (download env self id w) as [[b | e |] w']; reflexivity.
Qed.

(** Where the loop stops: at the first message that is neither Queued nor
    Running and whose handling does not hand control back to the loop. *)
Lemma receive_loop_ends env self g messages :
  forall w,
    fst (receive_loop env self g messages w) <> Hung ->
    exists pre m post,
      messages = pre ++ m :: post
      /\ Forall nonterminal pre
      /\ ~ informational m
      /\ (forall r, fst (receive_loop env self g messages w) = Returned r ->
            status m = COMPLETED /\ exists result, r = Some result)
      /\ (status m = STREAM ->
            exists e, fst (receive_loop env self g messages w) = Raised e).
Proof.
  induction messages as [|m rest IH]; intros w Hend.
  - simpl in Hend. congruence.
  - rewrite receive_loop_cons in Hend |- *.
    assert (forall w',
              fst (receive_loop env self g rest w') <> Hung ->
              nonterminal m ->
              exists pre m0 post,
                m :: rest = pre ++ m0 :: post
                /\ Forall nonterminal pre
                /\ ~ informational m0
                /\ (forall r,
                      fst (receive_loop env self g rest w') = Returned r ->
                      status m0 = COMPLETED /\ exists result, r = Some result)
                /\ (status m0 = STREAM ->
                      exists e,
                        fst (receive_loop env self g rest w') = Raised e))
      as Hgo.
    { intros w' Hrest Hm.
      destruct (IH w' Hrest) as (pre & m0 & post & -> & Hpre & Hm0 & Hr & Hs).
      exists (m :: pre), m0, post.
      split; [reflexivity | split; [now constructor | now split]]. }
    assert (forall P : ResponseModel -> Prop,
              ~ informational m -> P m ->
              exists pre m0 post,
                m :: rest = pre ++ m0 :: post
                /\ Forall nonterminal pre /\ ~ informational m0 /\ P m0)
      as Hhere.
    { intros P Hm HP. exists [], m, rest.
      split; [reflexivity | split; [constructor | now split]]. }
    destruct (status m) eqn:Hs.
    + rewrite informational_eq in Hend |- * by (left; exact Hs).
      apply Hgo; [exact Hend | left; exact Hs].
    + rewrite informational_eq in Hend |- * by (right; exact Hs).
      apply Hgo; [exact Hend | right; left; exact Hs].
    + destruct (handle_response env self m (Some g) (logged w [EvReceive m]))
        as [[x | e |] w'] eqn:E.
      * rewrite (stream_no_result _ _ _ _ _ _ _ Hs E) in Hend |- *.
        apply Hgo; [exact Hend | right; right; exact Hs].
      * apply (Hhere (fun m0 =>
                 (forall r, fst (@Raised (option Data) e, w') = Returned r ->
                    status m0 = COMPLETED /\ exists result, r = Some result)
                 /\ (status m0 = STREAM ->
                       exists e0, fst (@Raised (option Data) e, w') = Raised e0))).
        -- intros [H | H]; congruence.
        -- split; [intros r H; discriminate H | intros _; now exists e].
      * simpl in Hend. congruence.
    + rewrite (completed_eq _ _ _ _ _ Hs) in Hend |- *.
      match goal with
      | |- context [match ?c with _ => _ end] =>
          destruct c as [[[x|] | e |] w'] eqn:E
      end.
      * apply (Hhere (fun m0 =>
                 (forall r, fst (Returned (Some x), w') = Returned r ->
                    status m0 = COMPLETED /\ exists result, r = Some result)
                 /\ (status m0 = STREAM ->
                       exists e0, fst (Returned (Some x), w') = Raised e0))).
        -- intros [H | H]; congruence.
        -- split; [|congruence].
           intros r H. split; [exact Hs |]. exists x. simpl in H. congruence.
      * exfalso.
        destruct (data m); simpl in E;
          try (inversion E; fail).
        destruct (download env self (id m)
                    (logged (logged w [EvReceive m]) [EvLog m]))
          as [[b | e |] w1]; simpl in E; try discriminate E.
        destruct (torch_load env b); discriminate E.
      * apply (Hhere (fun m0 =>
                 (forall r, fst (@Raised (option Data) e, w') = Returned r ->
                    status m0 = COMPLETED /\ exists result, r = Some result)
                 /\ (status m0 = STREAM ->
                       exists e0, fst (@Raised (option Data) e, w') = Raised e0))).
        -- intros [H | H]; congruence.
        -- split; [intros r H; discriminate H | congruence].
      * simpl in Hend. congruence.
    + destruct (error_always_raises env self m (Some g)
                  (logged w [EvReceive m]) Hs) as (e & evs & He & _).
      rewrite He.
      apply (Hhere (fun m0 =>
               (forall r, fst (@Raised (option Data) e,
                               logged (logged w [EvReceive m]) evs) = Returned r ->
                  status m0 = COMPLETED /\ exists result, r = Some result)
               /\ (status m0 = STREAM ->
                     exists e0, fst (@Raised (option Data) e,
                                     logged (logged w [EvReceive m]) evs)
                                = Raised e0))).
      * intros [H | H]; congruence.
      * split; [intros r H; discriminate H | congruence].
Qed.

(** C2, as stated, fails: a Stream message can end the loop.  After a
    Queued message, a Stream message whose node index the graph does not
    have makes [graph.nodes[index]] raise, and the loop ends with that
    [IndexError] although no Completed and no Error message arrived. *)
Lemma stream_fault_ends_loop :
  let messages := [Examples.queued; MoreExamples.stream_far] in
  Forall nonterminal messages
  /\ status MoreExamples.stream_far = STREAM
  /\ receive_loop (Examples.env [] Examples.queued Examples.empty_stream)
       Examples.blocking_backend 0%nat messages (Examples.world None)
     = (Raised IndexError,
        logged (Examples.world None)
          [EvReceive Examples.queued; EvLog Examples.queued;
           EvReceive MoreExamples.stream_far; EvLog MoreExamples.stream_far;
           EvInject 0%nat []]).
Proof.
  intros messages. split; [|split; reflexivity].
  constructor; [left; reflexivity |].
  constructor; [right; right; reflexivity | constructor].
Qed.

(** C2 (amended): in the blocking receive loop a Queued or Running message
    is logged and the loop goes on to the next message; a Stream message
    never yields a result: the loop goes on to the next message when the
    handling of the message returns, and ends with the exception when the
    handling raises, which it does when a dependency names no node of the
    graph, when the node index is out of range and when the execution of
    the node raises; a Completed message ends the loop with one result, the
    inline data or the downloaded result, whatever messages follow; an
    Error message ends the loop with an exception; with no message left the
    loop waits.  So the loop returns only at a Completed message, it ends
    only at a Completed, an Error or a Stream message, at a Stream message
    only by raising, it waits for ever on Queued and Running messages alone,
    and after such messages it does what the next message makes it do. *)
Theorem blocking_loop_ends_on_terminal (env : Env) (self : RemoteBackend)
    (g : GraphRef) (response : ResponseModel) (rest : list ResponseModel)
    (w : World) :
  (informational response ->
     receive_loop env self g (response :: rest) w
     = receive_loop env self g rest
         (logged w [EvReceive response; EvLog response]))
  /\ (status response = STREAM ->
      receive_loop env self g (response :: rest) w
      = match handle_response env self response (Some g)
                (logged w [EvReceive response]) with
        | (Returned _, w') => receive_loop env self g rest w'
        | (Raised e, w') => (Raised e, w')
        | (Hung, w') => (Hung, w')
        end
      /\ forall x w',
           handle_response env self response (Some g)
             (logged w [EvReceive response]) = (Returned x, w') ->
           x = None)
  /\ (status response = STREAM ->
      forall node_index dependencies,
        data response = StreamData node_index dependencies ->
        (g < List.length (heap w))%nat ->
        let injection := inject_nodes dependencies (nth g (heap w) []) in
        let looped := receive_loop env self g (response :: rest) w in
        match snd injection with
        | Some e => fst looped = Raised e
        | None =>
            match py_index (fst injection) node_index with
            | None => fst looped = Raised IndexError
            | Some node =>
                match execute env node (fst injection) with
                | Returned nodes' =>
                    looped
                    = receive_loop env self g rest
                        (snd (handle_response env self response (Some g)
                                (logged w [EvReceive response])))
                | Raised e => fst looped = Raised e
                | Hung => fst looped = Hung
                end
            end
        end)
  /\ (status response = COMPLETED -> data response <> NoData ->
      receive_loop env self g (response :: rest) w
      = (Returned (Some (data response)),
         logged w [EvReceive response; EvLog response]))
  /\ (status response = COMPLETED -> data response = NoData ->
      forall result,
        fst (get_result env self (id response)
               (logged w [EvReceive response; EvLog response]))
        = Returned result ->
        fst (receive_loop env self g (response :: rest) w)
        = Returned (Some (ResultData result)))
  /\ (status response = NNSIGHT_ERROR ->
      exists e, fst (receive_loop env self g (response :: rest) w) = Raised e)
  /\ receive_loop env self g [] w = (Hung, w)
  /\ (forall messages,
        Forall nonterminal messages ->
        forall r, fst (receive_loop env self g messages w) <> Returned r)
  /\ (forall messages,
        Forall informational messages ->
        fst (receive_loop env self g messages w) = Hung
        /\ receive_loop env self g (messages ++ response :: rest) w
           = receive_loop env self g (response :: rest)
               (logged w (received messages)))
  /\ (forall messages,
        fst (receive_loop env self g messages w) <> Hung ->
        exists pre m post,
          messages = pre ++ m :: post
          /\ Forall nonterminal pre
          /\ ~ informational m
          /\ (forall r,
                fst (receive_loop env self g messages w) = Returned r ->
                status m = COMPLETED /\ exists result, r = Some result)
          /\ (status m = STREAM ->
                exists e,
                  fst (receive_loop env self g messages w) = Raised e)).
Proof.
  split; [|split; [|split; [|split; [|split; [|split; [|split; [|split;
    [|split]]]]]]]].
  - intros Hi. rewrite receive_loop_cons, (informational_eq _ _ _ _ _ Hi).
    now rewrite logged_logged.
  - intros Hs. split.
    + rewrite receive_loop_cons.
      destruct (handle_response env self response (Some g)
                  (logged w [EvReceive response])) as [[x | e |] w'] eqn:E;
        try reflexivity.
      now rewrite (stream_no_result _ _ _ _ _ _ _ Hs E).
    + intros x w'. now apply stream_no_result.
  - intros Hs node_index dependencies Hd Hg injection looped.
    subst looped. rewrite receive_loop_cons.
    rewrite (stream_eq env self response g _ node_index dependencies Hs Hd).
    cbn zeta. rewrite heap_injected by exact Hg.
    change (heap (logged w [EvReceive response])) with (heap w).
    fold injection.
    destruct (snd injection) as [e|]; [reflexivity|].
    destruct (py_index (fst injection) node_index) as [node|]; [|reflexivity].
    destruct (execute env node (fst injection)); reflexivity.
  - intros Hs Hd. rewrite receive_loop_cons, (completed_eq _ _ _ _ _ Hs).
    rewrite logged_logged.
    destruct (data response); try reflexivity; congruence.
  - intros Hs Hd result Hr.
    rewrite receive_loop_cons, (completed_eq _ _ _ _ _ Hs), Hd.
    rewrite logged_logged. rewrite get_result_eq_loop in Hr.
    simpl app in *.
    destruct (download env self (id response)
                (logged w [EvReceive response; EvLog response]))
      as [[b | e |] w1]; simpl in Hr; try discriminate Hr.
    rewrite Hr. reflexivity.
  - intros Hs.
    destruct (error_always_raises env self response (Some g)
                (logged w [EvReceive response]) Hs) as (e & evs & He & _).
    exists e. rewrite receive_loop_cons, He. reflexivity.
  - reflexivity.
  - intros messages Hm r. now apply receive_loop_needs_terminal.
  - intros messages Hm. split.
    + rewrite <- (app_nil_r messages).
      rewrite (receive_loop_informational _ _ _ _ Hm). reflexivity.
    + now apply receive_loop_informational.
  - intros messages. apply receive_loop_ends.
Qed.

Lemma blocking_loop_ends_on_terminal_witness :
  let env := Examples.env [] Examples.queued Examples.empty_stream in
  fst (receive_loop env Examples.blocking_backend 0%nat
         ([Examples.queued; Examples.running]
          ++ Examples.stream_b :: [Examples.completed_inline; Examples.failed])
         (Examples.world None))
  = Returned (Some (ResultData [("b", PyInt 10)]))
  /\ (exists e,
        fst (receive_loop env Examples.blocking_backend 0%nat
               [Examples.failed; Examples.completed_inline]
               (Examples.world None))
        = Raised e)
  /\ fst (receive_loop env Examples.blocking_backend 0%nat
            [MoreExamples.stream_far; Examples.completed_inline]
            (Examples.world None))
     = Raised IndexError.
Proof.
  intros env. split; [|split].
  - destruct (blocking_loop_ends_on_terminal env Examples.blocking_backend
                0%nat Examples.stream_b
                [Examples.completed_inline; Examples.failed]
                (Examples.world None))
      as (_ & _ & _ & _ & _ & _ & _ & _ & Hpre & _).
    destruct (Hpre [Examples.queued; Examples.running]) as [_ Heq].
    { constructor; [left; reflexivity |].
      constructor; [right; reflexivity | constructor]. }
    rewrite Heq.
    destruct (blocking_loop_ends_on_terminal env Examples.blocking_backend
                0%nat Examples.stream_b
                [Examples.completed_inline; Examples.failed]
                (logged (Examples.world None)
                   (received [Examples.queued; Examples.running])))
      as (_ & Hstream & _).
    destruct (Hstream eq_refl) as [Hnext _].
    rewrite Hnext.
    match goal with
    | |- fst (match ?h with _ => _ end) = _ =>
        change h with
          (@Returned (option Data) None,
           snd (handle_response env Examples.blocking_backend
                  Examples.stream_b (Some 0%nat)
                  (logged (logged (Examples.world None)
                             (received [Examples.queued; Examples.running]))
                     [EvReceive Examples.stream_b])))
    end.
    cbv iota.
    match goal with
    | |- fst (receive_loop _ _ _ _ ?w2) = _ =>
        destruct (blocking_loop_ends_on_terminal env
                    Examples.blocking_backend 0%nat
                    Examples.completed_inline [Examples.failed] w2)
          as (_ & _ & _ & Hdone & _)
    end.
    rewrite Hdone; [reflexivity | reflexivity | discriminate].
  - destruct (blocking_loop_ends_on_terminal env Examples.blocking_backend
                0%nat Examples.failed [Examples.completed_inline]
                (Examples.world None))
      as (_ & _ & _ & _ & _ & Herr & _).
    exact (Herr eq_refl).
  - destruct (blocking_loop_ends_on_terminal env Examples.blocking_backend
                0%nat MoreExamples.stream_far [Examples.completed_inline]
                (Examples.world None))
      as (_ & _ & Hfault & _).
    exact (Hfault eq_refl 7 [] eq_refl ltac:(simpl; lia)).
Defined.

End LoopFacts.

(** ** Non-blocking calls: polling a persisted job *)

Module PollFacts.
Import Remote Observe Steps RemoteLemmas HandleFacts LoopFacts.

(** One step of a proof that a computation keeps a relation: a structural
    rule, or a case analysis on what the code branches on. *)
Ltac keeps_step prim :=
  first
    [ prim
    | progress cbv zeta
    | apply keeps_ret; exact _ | apply keeps_raise; exact _
    | apply keeps_hang; exact _
    | apply keeps_lift; exact _ | apply keeps_read; exact _
    | apply keeps_bind; [ exact _ | | intros ]
    | apply keeps_try; [ exact _ | | intros ]
    | match goal with
      | |- keeps _ (match ?x with _ => _ end) => destruct x
      end ].

Ltac keeps_all prim := repeat (keeps_step prim).

Lemma iter_content_keeps R `{!Preorder R} chunks :
  (forall ev, keeps R (emit ev)) ->
  forall result_bytes, keeps R (iter_content chunks result_bytes).
Proof.
  intros He. induction chunks as [|data rest IH]; intros buf; simpl.
  - apply keeps_ret; exact _.
  - apply keeps_bind; [exact _ | apply He | intros; apply IH].
Qed.

Lemma download_keeps R `{!Preorder R} env self id :
  (forall ev, keeps R (emit ev)) -> keeps R (download env self id).
Proof.
  intros He. unfold download.
  keeps_all ltac:(first [apply He | apply iter_content_keeps; [exact _ | exact He]]).
Qed.

Lemma get_result_keeps R `{!Preorder R} env self id :
  (forall ev, keeps R (emit ev)) -> keeps R (get_result env self id).
Proof.
  intros He. unfold get_result.
  keeps_all ltac:(apply download_keeps; [exact _ | exact He]).
Qed.

(** Handling a response never touches the configuration. *)
Lemma handle_response_same_config env self response graph :
  keeps same_config (handle_response env self response graph).
Proof.
  unfold handle_response, inject, graph_node, node_execute.
  keeps_all ltac:(first [ apply emit_same_config | apply write_same_config
                        | apply get_result_keeps;
                          [exact _ | apply emit_same_config] ]).
Qed.

Lemma get_response_same_config env self :
  keeps same_config (get_response env self).
Proof.
  unfold get_response.
  keeps_all ltac:(first [ apply emit_same_config
                        | apply handle_response_same_config ]).
Qed.

(** Without a graph at hand, handling a response touches no graph object. *)
Lemma handle_response_same_heap env self response :
  keeps same_heap (handle_response env self response None).
Proof.
  unfold handle_response; simpl.
  keeps_all ltac:(first [ apply emit_same_heap
                        | apply get_result_keeps;
                          [exact _ | apply emit_same_heap] ]).
Qed.

Lemma emit_polling ev : polling ev -> keeps (grows_by polling) (emit ev).
Proof. apply emit_grows. Qed.

Lemma iter_content_polling chunks :
  forall result_bytes, keeps (grows_by polling) (iter_content chunks result_bytes).
Proof.
  induction chunks as [|data rest IH]; intros buf; simpl.
  - apply keeps_ret; exact _.
  - apply keeps_bind; [exact _ | apply emit_polling; exact I | intros; apply IH].
Qed.

Lemma get_result_polling env self id :
  keeps (grows_by polling) (get_result env self id).
Proof.
  unfold get_result, download.
  keeps_all ltac:(first [ apply emit_polling; exact I
                        | apply iter_content_polling ]).
Qed.

Lemma handle_response_polling env self response :
  keeps (grows_by polling) (handle_response env self response None).
Proof.
  unfold handle_response; simpl.
  keeps_all ltac:(first [ apply emit_polling; exact I
                        | apply get_result_polling ]).
Qed.

Lemma handle_some_completed env self response graph w r w' :
  handle_response env self response graph w = (Returned (Some r), w') ->
  status response = COMPLETED.
Proof.
  intros H. destruct (status response) eqn:Hs; try reflexivity.
  - rewrite informational_eq in H by (left; exact Hs). discriminate H.
  - rewrite informational_eq in H by (right; exact Hs). discriminate H.
  - apply (stream_no_result _ _ _ _ _ _ _ Hs) in H. discriminate H.
  - destruct (error_always_raises env self response graph w Hs)
      as (e & evs & He & _).
    rewrite He in H. discriminate H.
Qed.

Lemma handle_none_not_completed env self response graph w w' :
  handle_response env self response graph w = (Returned None, w') ->
  status response <> COMPLETED.
Proof.
  intros H Hs. rewrite (completed_eq _ _ _ _ _ Hs) in H.
  destruct (data response); try discriminate H.
  destruct (download env self (id response) (logged w [EvLog response]))
    as [[b | e |] w1]; try discriminate H.
  destruct (torch_load env b); discriminate H.
Qed.

Lemma get_response_eq env self w :
  get_response env self w
  = let reply := get_reply env (show_job_id (job_id self)) in
    let w1 := logged w [EvGetResponse (status_url self)] in
    if status_code reply =? 200
    then handle_response env self (json reply) None w1
    else (Raised (Exception (reason reply)), w1).
Proof.
  unfold get_response, bind. rewrite emit_eq. cbv zeta.
  destruct (status_code (get_reply env (show_job_id (job_id self))) =? 200);
    reflexivity.
Qed.

Lemma poll_eq env self graph w j :
  job_id self = Some j ->
  non_blocking_request env self graph w
  = match get_response env self w with
    | (Returned (Some r), w') => (Returned (Some r), cleared w')
    | (Returned None, w') => (Returned None, w')
    | (Raised e, w') => (Raised e, cleared w')
    | (Hung, w') => (Hung, w')
    end.
Proof.
  intros Hj. unfold non_blocking_request. rewrite Hj.
  unfold try_except, bind at 1.
  destruct (get_response env self w) as [[[r|] | e |] w']; reflexivity.
Qed.

Lemma legacy_handle_response_same_config env self object response :
  keeps same_config (Legacy.handle_response env self object response).
Proof.
  unfold Legacy.handle_response.
  keeps_all ltac:(first [ apply emit_same_config | apply write_same_config
                        | apply download_keeps;
                          [exact _ | apply emit_same_config] ]).
Qed.

Lemma legacy_get_response_same_config env self object :
  keeps same_config (Legacy.get_response env self object).
Proof.
  unfold Legacy.get_response.
  keeps_all ltac:(first [ apply emit_same_config
                        | apply legacy_handle_response_same_config ]).
Qed.

Lemma legacy_poll_eq env self object w :
  Legacy.non_blocking_request env self object None w
  = match Legacy.get_response env self object w with
    | (Returned response, w') =>
        (Returned tt,
         if Legacy.is_COMPLETED (status response) then cleared w' else w')
    | (Raised e, w') => (Raised e, cleared w')
    | (Hung, w') => (Hung, w')
    end.
Proof.
  unfold Legacy.non_blocking_request, try_except, bind at 1.
  destruct (Legacy.get_response env self object w) as [[response | e |] w'];
    try reflexivity.
  destruct (Legacy.is_COMPLETED (status response)); reflexivity.
Qed.

(** C5: on a non-blocking poll of a persisted job id, if getting and
    handling the status response raises, the persisted job id is set to
    [None] and saved and the same exception is raised from that world; if the
    poll returns, the id is cleared and saved exactly when the response was
    Completed (the poll then returns its result), and the configuration, in
    memory and as saved, is otherwise as it was.  This holds for remote.py
    and for the legacy backend. *)
Theorem poll_clears_persisted_job_id (env : Env) (self : RemoteBackend)
    (graph object : GraphRef) (w : World) (j : string) :
  job_id self = Some j ->
  let reply := json (get_reply env (show_job_id (job_id self))) in
  match get_response env self w with
  | (Raised e, w') =>
      non_blocking_request env self graph w = (Raised e, cleared w')
  | (Returned (Some r), w') =>
      status reply = COMPLETED
      /\ non_blocking_request env self graph w = (Returned (Some r), cleared w')
  | (Returned None, w') =>
      status reply <> COMPLETED
      /\ non_blocking_request env self graph w = (Returned None, w')
      /\ CONFIG w' = CONFIG w /\ saved_JOB_ID w' = saved_JOB_ID w
  | (Hung, w') => non_blocking_request env self graph w = (Hung, w')
  end
  /\ match Legacy.get_response env self object w with
     | (Raised e, w') =>
         Legacy.non_blocking_request env self object None w
         = (Raised e, cleared w')
     | (Returned response, w') =>
         Legacy.non_blocking_request env self object None w
         = (Returned tt,
            if Legacy.is_COMPLETED (status response) then cleared w' else w')
         /\ CONFIG w' = CONFIG w /\ saved_JOB_ID w' = saved_JOB_ID w
     | (Hung, w') =>
         Legacy.non_blocking_request env self object None w = (Hung, w')
     end
  /\ forall w',
       JOB_ID (CONFIG (cleared w')) = None
       /\ saved_JOB_ID (cleared w') = None
       /\ trace (cleared w') = trace w' ++ [EvSave None].
Proof.
  intros Hj reply. split; [|split].
  - rewrite (poll_eq env self graph w j Hj).
    pose proof (get_response_same_config env self w) as Hcfg.
    pose proof (get_response_eq env self w) as Heq. cbv zeta in Heq.
    fold reply in Heq. symmetry in Heq.
    destruct (get_response env self w) as [[[r|] | e |] w'];
      try reflexivity.
    + split; [|reflexivity].
      destruct (status_code (get_reply env (show_job_id (job_id self))) =? 200);
        [|discriminate Heq].
      eapply handle_some_completed; eassumption.
    + split; [|split; [reflexivity | exact Hcfg]].
      destruct (status_code (get_reply env (show_job_id (job_id self))) =? 200);
        [|discriminate Heq].
      eapply handle_none_not_completed; eassumption.
  - rewrite legacy_poll_eq.
    pose proof (legacy_get_response_same_config env self object w) as Hcfg.
    destruct (Legacy.get_response env self object w) as [[response | e |] w'];
      try reflexivity.
    split; [reflexivity | exact Hcfg].
  - intros w'. repeat split.
Qed.

(** Scenario C of the specification: the persisted id ["job-42"], the poll
    answers with an error status. *)
Lemma poll_clears_persisted_job_id_witness :
  let outcome :=
    non_blocking_request
      (Examples.env [] Examples.failed Examples.empty_stream)
      (Examples.polling_backend (Some "job-42")) 0%nat
      (Examples.world (Some "job-42")) in
  job_id (Examples.polling_backend (Some "job-42")) = Some "job-42"
  /\ (exists e, fst outcome = Raised e)
  /\ JOB_ID (CONFIG (snd outcome)) = None
  /\ saved_JOB_ID (snd outcome) = None.
Proof.
  intros outcome. split; [reflexivity|].
  pose proof (proj1 (poll_clears_persisted_job_id
                       (Examples.env [] Examples.failed Examples.empty_stream)
                       (Examples.polling_backend (Some "job-42")) 0%nat 0%nat
                       (Examples.world (Some "job-42")) "job-42" eq_refl)) as H.
  subst outcome. rewrite H.
  split; [now exists (AttributeError "nodes") | split; reflexivity].
Defined.

Lemma get_response_polling env self :
  keeps (grows_by polling) (get_response env self).
Proof.
  unfold get_response.
  keeps_all ltac:(first [ apply emit_polling; exact I
                        | apply handle_response_polling ]).
Qed.

Lemma get_response_same_heap env self : keeps same_heap (get_response env self).
Proof.
  unfold get_response.
  keeps_all ltac:(first [ apply emit_same_heap
                        | apply handle_response_same_heap ]).
Qed.

Lemma get_response_trace env self w :
  exists evs,
    trace (snd (get_response env self w))
    = trace w ++ EvGetResponse (status_url self) :: evs
    /\ Forall polling evs.
Proof.
  rewrite get_response_eq. cbv zeta.
  destruct (status_code (get_reply env (show_job_id (job_id self))) =? 200).
  - destruct (handle_response_polling env self
                (json (get_reply env (show_job_id (job_id self))))
                (logged w [EvGetResponse (status_url self)]))
      as (evs & Ht & Hp).
    exists evs. split; [|exact Hp]. rewrite Ht. simpl.
    now rewrite <- app_assoc.
  - exists []. split; [reflexivity | constructor].
Qed.

Lemma poll_trace env self graph w j :
  job_id self = Some j ->
  (exists evs,
     trace (snd (non_blocking_request env self graph w))
     = trace w ++ EvGetResponse (status_url self) :: evs
     /\ Forall polling evs)
  /\ heap (snd (non_blocking_request env self graph w)) = heap w.
Proof.
  intros Hj. rewrite (poll_eq env self graph w j Hj).
  destruct (get_response_trace env self w) as (evs & Ht & Hp).
  pose proof (get_response_same_heap env self w) as Hh.
  unfold same_heap in Hh.
  assert (Forall polling (evs ++ [EvSave None])) as Hp'.
  { apply Forall_app; split; [exact Hp | repeat constructor]. }
  destruct (get_response env self w) as [[[r|] | e |] w']; simpl in *.
  - split; [|exact Hh]. exists (evs ++ [EvSave None]).
    split; [|exact Hp']. rewrite Ht, <- app_assoc. reflexivity.
  - split; [|exact Hh]. exists evs. split; assumption.
  - split; [|exact Hh]. exists (evs ++ [EvSave None]).
    split; [|exact Hp']. rewrite Ht, <- app_assoc. reflexivity.
  - split; [|exact Hh]. exists evs. split; assumption.
Qed.

Lemma polling_not_submission ev : polling ev -> ~ submission ev.
Proof. destruct ev; simpl; tauto. Qed.

Lemma init_job_id cfg model_key host blocking job ssl api_key j :
  JOB_ID cfg = Some j ->
  exists j', job_id (init cfg model_key host blocking job ssl api_key) = Some j'.
Proof.
  intros H. unfold init; simpl. rewrite H. destruct job as [s|]; simpl.
  - destruct (String.eqb s ""); eauto.
  - eauto.
Qed.

Lemma call_eq env self graph w :
  blocking self = false ->
  call env self graph w
  = match non_blocking_request env self graph w with
    | (Returned (Some r), w') => inject_data (Some graph) r w'
    | (Returned None, w') => (Returned tt, w')
    | (Raised e, w') => (Raised e, w')
    | (Hung, w') => (Hung, w')
    end.
Proof.
  intros Hb. unfold call. rewrite Hb. unfold bind.
  destruct (non_blocking_request env self graph w) as [[[r|] | e |] w'];
    reflexivity.
Qed.

Lemma inject_data_effect graph r w :
  (exists evs,
     trace (snd (inject_data (Some graph) r w)) = trace w ++ evs
     /\ Forall (fun ev => exists payload, ev = EvInject graph payload) evs)
  /\ forall h, h <> graph ->
       nth h (heap (snd (inject_data (Some graph) r w))) [] = nth h (heap w) [].
Proof.
  destruct r as [| result | i d | n m];
    try (split; [exists []; split; [simpl; now rewrite app_nil_r | constructor]
                | reflexivity]).
  unfold inject_data. rewrite inject_eq. cbv zeta. split.
  - exists [EvInject graph result]. split; [reflexivity|].
    repeat constructor. now exists result.
  - intros h Hh. simpl. apply nth_store_other. congruence.
Qed.

(** C10, as stated, fails: what a non-blocking call does is decided by the
    job id the backend was built with, not by the job id persisted when the
    call is made.  A backend built while no job id was persisted submits the
    graph; called again, now that its own submission has persisted
    ["job-42"], it serializes and posts the graph a second time.  And a
    backend built with the job id ["job-7"] while ["job-42"] is persisted
    polls the status of ["job-7"], not of the persisted job. *)
Lemma stale_backend_submits_again :
  let env := Examples.env [] Examples.queued Examples.empty_stream in
  let backend := Examples.polling_backend None in
  let w1 := snd (call env backend 0%nat (Examples.world None)) in
  let other :=
    init (Examples.config (Some "job-42")) "model" None false (Some "job-7")
      None "" in
  JOB_ID (CONFIG w1) = Some "job-42"
  /\ saved_JOB_ID w1 = Some "job-42"
  /\ trace (snd (call env backend 0%nat w1))
     = trace w1
       ++ [EvSerialize 0%nat;
           EvPost "https://ndif.dev/request" [x7b; x7d]
             [("model_key", "model"); ("format", "json"); ("zlib", "False");
              ("Content-Type", "application/octet-stream")];
           EvLog Examples.queued;
           EvSave (Some "job-42")]
  /\ trace (snd (call env other 0%nat (Examples.world (Some "job-42"))))
     = [EvGetResponse "https://ndif.dev/response/job-7";
        EvLog Examples.queued].
Proof. repeat split. Qed.

(** C10 (amended): a non-blocking call on a backend that holds a job id
    polls that job: the first thing the call does is to request the status
    of the backend's job, nothing it does serializes the graph, posts a
    request, copies or prunes a graph or opens the websocket, and no graph
    object changes while it polls; the graph passed in is only ever the
    target of the injection of a returned result, every other graph object
    is as it was.  The job id a backend holds is fixed when it is built: the
    job id passed to it, or else the job id persisted at that time; so a
    backend built with no job id of its own while a job id is persisted
    holds, and polls, the persisted one. *)
Theorem poll_never_submits (env : Env) (self : RemoteBackend)
    (graph : GraphRef) (w : World) (j : string) :
  job_id self = Some j ->
  blocking self = false ->
  let polled := non_blocking_request env self graph w in
  let outcome := call env self graph w in
  (exists evs,
     trace (snd polled)
     = trace w ++ EvGetResponse (address self ++ "/response/" ++ j)%string
                  :: evs
     /\ Forall polling evs)
  /\ heap (snd polled) = heap w
  /\ outcome
     = match polled with
       | (Returned (Some r), w') => inject_data (Some graph) r w'
       | (Returned None, w') => (Returned tt, w')
       | (Raised e, w') => (Raised e, w')
       | (Hung, w') => (Hung, w')
       end
  /\ (exists evs,
        trace (snd outcome) = trace w ++ evs
        /\ Forall (fun ev => ~ submission ev) evs
        /\ Forall (fun ev => polling ev
                             \/ exists payload, ev = EvInject graph payload) evs)
  /\ (forall h, h <> graph ->
        nth h (heap (snd outcome)) [] = nth h (heap w) [])
  /\ (forall cfg model_key host blocking job ssl api_key,
        let built := init cfg model_key host blocking job ssl api_key in
        (job = None -> job_id built = JOB_ID cfg)
        /\ (forall j0, job = Some j0 -> j0 <> "" -> job_id built = Some j0)
        /\ (forall j1, JOB_ID cfg = Some j1 ->
              exists j', job_id built = Some j')).
Proof.
  intros Hj Hb polled outcome.
  destruct (poll_trace env self graph w j Hj) as [(evs & Ht & Hp) Hh].
  fold polled in Ht, Hh.
  assert (status_url self = (address self ++ "/response/" ++ j)%string) as Hurl
    by (unfold status_url; now rewrite Hj).
  rewrite Hurl in Ht.
  assert (outcome
          = match polled with
            | (Returned (Some r), w') => inject_data (Some graph) r w'
            | (Returned None, w') => (Returned tt, w')
            | (Raised e, w') => (Raised e, w')
            | (Hung, w') => (Hung, w')
            end) as Hcall by (apply call_eq; exact Hb).
  split; [now exists evs | split; [exact Hh |]].
  split; [exact Hcall |].
  assert (forall cfg model_key host blocking job ssl api_key,
            let built := init cfg model_key host blocking job ssl api_key in
            (job = None -> job_id built = JOB_ID cfg)
            /\ (forall j0, job = Some j0 -> j0 <> "" -> job_id built = Some j0)
            /\ (forall j1, JOB_ID cfg = Some j1 ->
                  exists j', job_id built = Some j')) as Hinit.
  { intros cfg mk host bl job ssl key built. split; [|split].
    - intros ->. reflexivity.
    - intros j0 -> Hne. subst built. unfold init; simpl.
      destruct (String.eqb_spec j0 ""); [contradiction | reflexivity].
    - intros j1 H1. now apply (init_job_id cfg mk host bl job ssl key j1). }
  set (url := (address self ++ "/response/" ++ j)%string) in *.
  assert (Forall (fun ev => polling ev
                            \/ exists payload, ev = EvInject graph payload)
            (EvGetResponse url :: evs)) as Hall.
  { constructor; [left; exact I |].
    eapply Forall_impl; [|exact Hp]. intros ev H; now left. }
  assert (forall l,
            Forall (fun ev => polling ev
                              \/ exists payload, ev = EvInject graph payload) l ->
            Forall (fun ev => ~ submission ev) l) as Hsub.
  { intros l Hl. eapply Forall_impl; [|exact Hl].
    intros ev [H | [payload ->]]; [now apply polling_not_submission | tauto]. }
  rewrite Hcall. clear Hcall outcome.
  destruct polled as [[[r|] | e |] w']; simpl in Ht, Hh.
  - destruct (inject_data_effect graph r w') as [(evs' & Ht' & Hp') Hh'].
    split; [|split; [|exact Hinit]].
    + exists ((EvGetResponse url :: evs) ++ evs').
      rewrite Ht', Ht, <- app_assoc.
      assert (Forall (fun ev => polling ev
                                \/ exists payload, ev = EvInject graph payload)
                ((EvGetResponse url :: evs) ++ evs')) as Hboth.
      { apply Forall_app; split; [exact Hall |].
        eapply Forall_impl; [|exact Hp']. intros ev H; now right. }
      split; [reflexivity | split; [now apply Hsub | exact Hboth]].
    + intros h Hne. rewrite (Hh' h Hne), Hh. reflexivity.
  - split; [|split; [intros h _; simpl; now rewrite Hh | exact Hinit]].
    exists (EvGetResponse url :: evs).
    split; [exact Ht | split; [now apply Hsub | exact Hall]].
  - split; [|split; [intros h _; simpl; now rewrite Hh | exact Hinit]].
    exists (EvGetResponse url :: evs).
    split; [exact Ht | split; [now apply Hsub | exact Hall]].
  - split; [|split; [intros h _; simpl; now rewrite Hh | exact Hinit]].
    exists (EvGetResponse url :: evs).
    split; [exact Ht | split; [now apply Hsub | exact Hall]].
Qed.

Lemma poll_never_submits_witness :
  let env := Examples.env [] Examples.completed_inline Examples.empty_stream in
  let outcome :=
    call env (Examples.polling_backend (Some "job-42")) 0%nat
      (Examples.world (Some "job-42")) in
  job_id (Examples.polling_backend (Some "job-42")) = Some "job-42"
  /\ exists evs,
       trace (snd outcome) = trace (Examples.world (Some "job-42")) ++ evs
       /\ Forall (fun ev => ~ submission ev) evs.
Proof.
  intros env outcome. split; [reflexivity|].
  destruct (poll_never_submits env (Examples.polling_backend (Some "job-42"))
              0%nat (Examples.world (Some "job-42")) "job-42"
              eq_refl eq_refl)
    as (_ & _ & _ & (evs & Ht & Hs & _) & _).
  exists evs. split; [exact Ht | exact Hs].
Defined.

End PollFacts.

(** ** Preprocessing and serializing a graph *)

Module SerializeFacts.
Import Remote Observe Steps RemoteLemmas PollFacts.

Lemma store_beyond {A} (l : list A) i x :
  (List.length l <= i)%nat -> store l i x = l.
Proof.
  revert i; induction l as [|y l IH]; intros i H; simpl; [reflexivity|].
  destruct i as [|i]; simpl in H; [lia|]. f_equal. apply IH. lia.
Qed.

Lemma nth_store {A} (l : list A) i x d :
  nth i (store l i x) d = if (i <? List.length l)%nat then x else d.
Proof.
  destruct (Nat.ltb_spec i (List.length l)) as [H | H].
  - now apply nth_store_same.
  - rewrite store_beyond by assumption. now apply nth_overflow.
Qed.


Lemma prune_loop_prunes env new_graph fuel :
  forall cursor,
    keeps (grows_by (prunes new_graph)) (prune_loop env new_graph fuel cursor).
Proof.
  induction fuel as [|fuel IH]; intros cursor; simpl.
  - keeps_all ltac:(fail).
  - apply keeps_bind; [exact _ | apply keeps_read; exact _ | intros nodes].
    destruct (nth_error nodes cursor) as [node|];
      [|apply keeps_ret; exact _].
    apply keeps_bind; [exact _ | | intros; apply IH].
    destruct (is_LocalContext (target node)) eqn:E;
      [|apply keeps_ret; exact _].
    apply keeps_bind; [exact _ | | intros; apply write_grows].
    apply emit_grows. exists node. split; [reflexivity|].
    destruct (target node); [reflexivity | discriminate E].
Qed.

Lemma prune_loop_eq env new_graph fuel cursor w :
  prune_loop env new_graph fuel cursor w
  = match nth_error (nth new_graph (heap w) []) cursor with
    | None => (Returned tt, w)
    | Some node =>
        match fuel with
        | O => (Hung, w)
        | S fuel' =>
            prune_loop env new_graph fuel' (S cursor)
              (if is_LocalContext (target node)
               then with_graph (logged w [EvPrune new_graph node]) new_graph
                      (prune env node (nth new_graph (heap w) []))
               else w)
        end
    end.
Proof.
  destruct fuel; simpl; unfold bind at 1, read_graph at 1;
    destruct (nth_error (nth new_graph (heap w) []) cursor) as [node|];
    try reflexivity.
  unfold bind at 1. destruct (is_LocalContext (target node)); reflexivity.
Qed.

Lemma prune_loop_heap env new_graph fuel :
  forall cursor w,
    (new_graph < List.length (heap w))%nat ->
    nth new_graph (heap (snd (prune_loop env new_graph fuel cursor w))) []
    = pruned env fuel cursor (nth new_graph (heap w) [])
    /\ List.length (heap (snd (prune_loop env new_graph fuel cursor w)))
       = List.length (heap w).
Proof.
  induction fuel as [|fuel IH]; intros cursor w Hlive;
    rewrite prune_loop_eq; simpl pruned;
    destruct (nth_error (nth new_graph (heap w) []) cursor) as [node|];
    try (split; reflexivity).
  destruct (is_LocalContext (target node)).
  - destruct (IH (S cursor)
                (with_graph (logged w [EvPrune new_graph node]) new_graph
                   (prune env node (nth new_graph (heap w) []))))
      as [H1 H2]; [simpl; rewrite length_store; exact Hlive |].
    rewrite H1, H2. simpl. rewrite length_store.
    rewrite nth_store_same by exact Hlive. split; reflexivity.
  - apply IH. exact Hlive.
Qed.

Lemma pruned_full env :
  (forall n nodes, (List.length (prune env n nodes) <= List.length nodes)%nat) ->
  forall fuel cursor w new_graph,
    (List.length (nth new_graph (heap w) []) <= cursor + fuel)%nat ->
    fst (prune_loop env new_graph fuel cursor w) = Returned tt.
Proof.
  intros Hshrink. induction fuel as [|fuel IH]; intros cursor w new_graph Hlen;
    rewrite prune_loop_eq;
    destruct (nth_error (nth new_graph (heap w) []) cursor) as [node|] eqn:E;
    try reflexivity.
  - assert (nth_error (nth new_graph (heap w) []) cursor <> None) as Hsome
      by congruence.
    apply nth_error_Some in Hsome. lia.
  - apply IH. destruct (is_LocalContext (target node)); [|lia].
    simpl. rewrite nth_store.
    destruct (new_graph <? List.length (heap w))%nat; simpl; [|lia].
    specialize (Hshrink node (nth new_graph (heap w) [])). lia.
Qed.

Lemma graph_copy_eq graph w :
  graph_copy graph w
  = (Returned (List.length (heap w)),
     {| heap := heap w ++ [nth graph (heap w) []]; CONFIG := CONFIG w;
        saved_JOB_ID := saved_JOB_ID w;
        trace := trace w ++ [EvCopy graph (List.length (heap w))] |}).
Proof. reflexivity. Qed.

Lemma serialize_same_heap env self graph :
  keeps same_heap (serialize env self graph).
Proof.
  unfold serialize.
  keeps_all ltac:(first [ apply emit_same_heap ]).
Qed.

Lemma serialize_eq env self graph w :
  serialize env self graph w
  = (encoded env self (nth graph (heap w) []), logged w [EvSerialize graph]).
Proof.
  unfold serialize, encoded, bind. rewrite emit_eq. unfold read_graph.
  change (heap (logged w [EvSerialize graph])) with (heap w).
  destruct (String.eqb (format self) "json"); [reflexivity|].
  destruct (String.eqb (format self) "pt"); reflexivity.
Qed.

Lemma preprocess_eq env graph w :
  preprocess env graph w
  = let new_graph := List.length (heap w) in
    let w1 := snd (graph_copy graph w) in
    match prune_loop env new_graph
            (List.length (nth new_graph (heap w1) [])) 0 w1 with
    | (Returned _, w2) => (Returned new_graph, w2)
    | (Raised e, w2) => (Raised e, w2)
    | (Hung, w2) => (Hung, w2)
    end.
Proof.
  unfold preprocess. unfold bind at 1. rewrite graph_copy_eq.
  cbv zeta. unfold bind at 1, read_graph at 1. unfold bind, ret.
  cbn [snd].
  match goal with
  | |- context [prune_loop env ?n ?f 0 ?w1] =>
      destruct (prune_loop env n f 0 w1) as [[[] | e |] w2]
  end; reflexivity.
Qed.




(** [blocking_request] from the point where the graph has been copied and
    pruned: it serializes the graph it is handed, then submits and waits. *)
Lemma blocking_request_eq env self graph w sid :
  sio_connect env = Returned sid ->
  blocking_request env self graph w
  = match preprocess env graph (logged w [EvConnect (ws_address self)]) with
    | (Returned remote_graph, w2) =>
        match encoded env self (nth remote_graph (heap w2) []) with
        | Returned (data, headers) =>
            (submit_request env self data (set_header "session_id" sid headers) ;;;
             receive_loop env self graph (sio_messages env))
              (logged w2 [EvSerialize remote_graph])
        | Raised e => (Raised e, logged w2 [EvSerialize remote_graph])
        | Hung => (Hung, logged w2 [EvSerialize remote_graph])
        end
    | (Raised e, w2) => (Raised e, w2)
    | (Hung, w2) => (Hung, w2)
    end.
Proof.
  intros Hc. unfold blocking_request. unfold bind at 1. rewrite emit_eq.
  unfold bind at 1, lift at 1. rewrite Hc. unfold bind at 1.
  destruct (preprocess env graph (logged w [EvConnect (ws_address self)]))
    as [[remote_graph | e |] w2]; try reflexivity.
  unfold bind at 1. rewrite serialize_eq.
  destruct (encoded env self (nth remote_graph (heap w2) []))
    as [[data headers] | e |]; reflexivity.
Qed.

Lemma preprocess_world env graph w :
  let new_graph := List.length (heap w) in
  let nodes := nth graph (heap w) [] in
  let w1 := snd (graph_copy graph w) in
  nth new_graph (heap w1) [] = nodes
  /\ (new_graph < List.length (heap w1))%nat
  /\ preprocess env graph w
     = match prune_loop env new_graph (List.length nodes) 0 w1 with
       | (Returned _, w2) => (Returned new_graph, w2)
       | (Raised e, w2) => (Raised e, w2)
       | (Hung, w2) => (Hung, w2)
       end.
Proof.
  intros new_graph nodes w1.
  assert (nth new_graph (heap w1) [] = nodes) as Hcopy.
  { subst w1. rewrite graph_copy_eq. simpl. apply nth_middle. }
  split; [exact Hcopy | split].
  - subst w1. rewrite graph_copy_eq. simpl. rewrite length_app. simpl.
    subst new_graph. lia.
  - rewrite preprocess_eq. cbv zeta. fold new_graph w1. now rewrite Hcopy.
Qed.

Lemma preprocess_events env graph w :
  exists evs,
    trace (snd (preprocess env graph w))
    = trace w ++ EvCopy graph (List.length (heap w)) :: evs
    /\ Forall (prunes (List.length (heap w))) evs.
Proof.
  destruct (preprocess_world env graph w) as (_ & _ & Heq). rewrite Heq.
  destruct (prune_loop_prunes env (List.length (heap w))
              (List.length (nth graph (heap w) [])) 0%nat
              (snd (graph_copy graph w))) as (evs & Ht & Hp).
  exists evs. split; [|exact Hp].
  destruct (prune_loop env (List.length (heap w))
              (List.length (nth graph (heap w) [])) 0
              (snd (graph_copy graph w))) as [[[] | e |] w2];
    simpl in *; rewrite Ht, <- app_assoc; reflexivity.
Qed.

Lemma preprocess_returns env graph w :
  (forall n ns, (List.length (prune env n ns) <= List.length ns)%nat) ->
  fst (preprocess env graph w) = Returned (List.length (heap w)).
Proof.
  intros Hshrink.
  destruct (preprocess_world env graph w) as (Hcopy & _ & Heq). rewrite Heq.
  pose proof (pruned_full env Hshrink (List.length (nth graph (heap w) []))
                0%nat (snd (graph_copy graph w)) (List.length (heap w))) as Hret.
  rewrite Hcopy in Hret. specialize (Hret (Nat.le_refl _)).
  destruct (prune_loop env (List.length (heap w))
              (List.length (nth graph (heap w) [])) 0
              (snd (graph_copy graph w))) as [[[] | e |] w2];
    simpl in Hret; try discriminate Hret.
  reflexivity.
Qed.


Lemma drop_node_shrinks n ns :
  (List.length (Examples.drop_node n ns) <= List.length ns)%nat.
Proof. apply filter_length_le. Qed.

End SerializeFacts.

(** ** Writing result values into the graph (tracer.py) *)

Module ResultValueFacts.
Import Remote Observe ObserveValues Steps RemoteLemmas.

Lemma handle_result_value_inject value :
  forall nodes,
    Legacy.remote_backend_handle_result_value value nodes
    = inject_nodes value nodes.
Proof.
  induction value as [|[k v] rest IH]; intros nodes; simpl; [reflexivity|].
  destruct (existsb (has_name k) nodes); [apply IH | reflexivity].
Qed.

Lemma absent_name_map k v nodes :
  ~ In k (map name nodes) ->
  map (fun n => if has_name k n then set_value v n else n) nodes = nodes.
Proof.
  induction nodes as [|m rest IH]; intros Hnotin; simpl; [reflexivity|].
  simpl in Hnotin. destruct (has_name k m) eqn:Em.
  - unfold has_name in Em. apply String.eqb_eq in Em.
    exfalso. apply Hnotin. left. now symmetry.
  - f_equal. apply IH. intros H. apply Hnotin. now right.
Qed.

Lemma overwrite_map k v nodes :
  NoDup (map name nodes) ->
  overwrite k v nodes
  = map (fun n => if has_name k n then set_value v n else n) nodes.
Proof.
  induction nodes as [|n rest IH]; intros Hnd; simpl; [reflexivity|].
  inversion Hnd as [|? ? Hnotin Hrest]; subst.
  destruct (has_name k n) eqn:E.
  - f_equal. unfold has_name in E. apply String.eqb_eq in E. subst k.
    symmetry. now apply absent_name_map.
  - f_equal. now apply IH.
Qed.

Lemma names_overwrite k v nodes :
  map name (overwrite k v nodes) = map name nodes.
Proof.
  induction nodes as [|n rest IH]; simpl; [reflexivity|].
  destruct (has_name k n); simpl; [reflexivity | now rewrite IH].
Qed.

Lemma names_updated payload nodes :
  map name (map (updated payload) nodes) = map name nodes.
Proof.
  rewrite map_map. apply map_ext. intros n. unfold updated.
  destruct (final payload (name n)); reflexivity.
Qed.

Lemma existsb_names key nodes nodes' :
  map name nodes' = map name nodes ->
  existsb (has_name key) nodes' = existsb (has_name key) nodes.
Proof.
  revert nodes'. induction nodes as [|n rest IH]; intros [|n' rest'] H;
    simpl in *; try discriminate; [reflexivity|].
  inversion H as [[Hn Hrest]]. unfold has_name at 1 3. rewrite Hn.
  f_equal. now apply IH.
Qed.

(** With distinct node names, a payload whose keys are all names of nodes
    is written node by node. *)
Lemma handle_result_value_known value :
  forall nodes,
    NoDup (map name nodes) ->
    known value nodes ->
    Legacy.remote_backend_handle_result_value value nodes
    = (map (updated value) nodes, None).
Proof.
  induction value as [|[k v] rest IH]; intros nodes Hnd Hk; simpl.
  - f_equal. symmetry. rewrite <- (map_id nodes) at 2. apply map_ext.
    reflexivity.
  - inversion Hk as [|? ? Hhead Htail]; subst. simpl in Hhead.
    rewrite Hhead. rewrite IH.
    + f_equal. rewrite (overwrite_map k v nodes Hnd), map_map.
      apply map_ext. intros n. unfold updated; simpl.
      destruct (has_name k n) eqn:E.
      * unfold has_name in E. simpl. rewrite E.
        destruct (final rest (name n)); reflexivity.
      * unfold has_name in E. rewrite E.
        destruct (final rest (name n)); reflexivity.
    + now rewrite names_overwrite.
    + unfold known in *. eapply Forall_impl; [|exact Htail].
      intros entry H. now rewrite existsb_overwrite.
Qed.

Lemma updated_updated payload n :
  updated payload (updated payload n) = updated payload n.
Proof.
  unfold updated at 2 3.
  destruct (final payload (name n)) as [v|] eqn:E.
  - unfold updated. change (name (set_value v n)) with (name n).
    rewrite E. reflexivity.
  - unfold updated. rewrite E. reflexivity.
Qed.

Lemma known_names payload nodes nodes' :
  map name nodes' = map name nodes ->
  known payload nodes -> known payload nodes'.
Proof.
  intros Hn Hk. unfold known in *. eapply Forall_impl; [|exact Hk].
  intros entry H. now rewrite (existsb_names _ _ _ Hn).
Qed.

Lemma handle_result_value_fault pre :
  forall nodes key v post,
    known pre nodes ->
    existsb (has_name key) nodes = false ->
    Legacy.remote_backend_handle_result_value (pre ++ (key, v) :: post) nodes
    = (fst (Legacy.remote_backend_handle_result_value pre nodes),
       Some (KeyError key)).
Proof.
  induction pre as [|[k0 v0] pre IH]; intros nodes key v post Hk Hkey; simpl.
  - now rewrite Hkey.
  - inversion Hk as [|? ? Hhead Htail]; subst. simpl in Hhead. rewrite Hhead.
    apply IH.
    + unfold known in *. eapply Forall_impl; [|exact Htail].
      intros entry H. now rewrite existsb_overwrite.
    + now rewrite existsb_overwrite.
Qed.

Lemma handle_result_value_no_fault value :
  forall nodes,
    snd (Legacy.remote_backend_handle_result_value value nodes) = None ->
    known value nodes.
Proof.
  induction value as [|[k v] rest IH]; intros nodes H; simpl in *.
  - constructor.
  - destruct (existsb (has_name k) nodes) eqn:E; [|discriminate H].
    constructor; [exact E |].
    specialize (IH _ H). unfold known in *.
    eapply Forall_impl; [|exact IH].
    intros entry He. cbv beta in He. now rewrite existsb_overwrite in He.
Qed.

Lemma known_no_fault value :
  forall nodes,
    known value nodes ->
    snd (Legacy.remote_backend_handle_result_value value nodes) = None.
Proof.
  induction value as [|[k v] rest IH]; intros nodes Hk; simpl.
  - reflexivity.
  - inversion Hk as [|? ? Hhead Htail]; subst. simpl in Hhead. rewrite Hhead.
    apply IH. unfold known in *. eapply Forall_impl; [|exact Htail].
    intros entry H. now rewrite existsb_overwrite.
Qed.

(** X1: with distinct node names and a result whose keys all name nodes,
    [remote_backend_handle_result_value] raises nothing and leaves every
    node in its place with its name, index, target and traceback: a node the
    result names holds the last value the result gives it, any other node is
    exactly as it was. *)
Theorem result_values_are_written (result : RESULT) (nodes : Graph) :
  NoDup (map name nodes) ->
  known result nodes ->
  let outcome := Legacy.remote_backend_handle_result_value result nodes in
  snd outcome = None
  /\ List.length (fst outcome) = List.length nodes
  /\ (forall i n, nth_error nodes i = Some n ->
        exists n',
          nth_error (fst outcome) i = Some n'
          /\ name n' = name n /\ index n' = index n
          /\ target n' = target n /\ traceback n' = traceback n
          /\ value n' = match final result (name n) with
                        | Some v => Some v
                        | None => value n
                        end).
Proof.
  intros Hnd Hk outcome. subst outcome.
  rewrite (handle_result_value_known result nodes Hnd Hk). simpl.
  split; [reflexivity | split; [apply length_map |]].
  intros i n Hi. exists (updated result n).
  split; [now apply map_nth_error |].
  unfold updated. destruct (final result (name n)); repeat split.
Qed.

Lemma result_values_are_written_witness :
  let outcome :=
    Legacy.remote_backend_handle_result_value [("b", PyInt 10)]
      Examples.graph_ab in
  snd outcome = None
  /\ exists n', nth_error (fst outcome) 2 = Some n'
                /\ value n' = Some (PyInt 10).
Proof.
  destruct (result_values_are_written [("b", PyInt 10)] Examples.graph_ab)
    as (Hnone & _ & Hnodes).
  - repeat constructor; simpl; intuition discriminate.
  - repeat constructor.
  - split; [exact Hnone |].
    destruct (Hnodes 2%nat Examples.node_b eq_refl)
      as (n' & Hn & _ & _ & _ & _ & Hv).
    exists n'. split; [exact Hn | exact Hv].
Defined.

(** X2: writing the same result a second time changes nothing: with
    distinct node names and a result whose keys all name nodes, the graph
    after two applications is the graph after one. *)
Theorem result_values_idempotent (value : RESULT) (nodes : Graph) :
  NoDup (map name nodes) ->
  known value nodes ->
  Legacy.remote_backend_handle_result_value value
    (fst (Legacy.remote_backend_handle_result_value value nodes))
  = Legacy.remote_backend_handle_result_value value nodes.
Proof.
  intros Hnd Hk.
  rewrite (handle_result_value_known value nodes Hnd Hk). simpl.
  rewrite handle_result_value_known.
  - f_equal. rewrite map_map. apply map_ext. apply updated_updated.
  - now rewrite names_updated.
  - eapply known_names; [apply names_updated | exact Hk].
Qed.

Lemma result_values_idempotent_witness :
  Legacy.remote_backend_handle_result_value [("b", PyInt 10); ("a", PyInt 5)]
    (fst (Legacy.remote_backend_handle_result_value
            [("b", PyInt 10); ("a", PyInt 5)] Examples.graph_ab))
  = Legacy.remote_backend_handle_result_value
      [("b", PyInt 10); ("a", PyInt 5)] Examples.graph_ab.
Proof.
  apply result_values_idempotent.
  - repeat constructor; simpl; intuition discriminate.
  - repeat constructor.
Defined.

(** X3: [remote_backend_handle_result_value] faults exactly when the result
    names something that is not a node; the fault is the [KeyError] of the
    first such name, the entries before it have been written and none after
    it. *)
Theorem result_values_unknown_name (value : RESULT) (nodes : Graph) :
  (snd (Legacy.remote_backend_handle_result_value value nodes) = None
   <-> known value nodes)
  /\ (forall pre key v post,
        value = pre ++ (key, v) :: post ->
        known pre nodes ->
        existsb (has_name key) nodes = false ->
        Legacy.remote_backend_handle_result_value value nodes
        = (fst (Legacy.remote_backend_handle_result_value pre nodes),
           Some (KeyError key))).
Proof.
  split.
  - split; [apply handle_result_value_no_fault | apply known_no_fault].
  - intros pre key v post -> Hk Hkey. now apply handle_result_value_fault.
Qed.

Lemma result_values_unknown_name_witness :
  Legacy.remote_backend_handle_result_value
    [("a", PyInt 5); ("zz", PyInt 0); ("b", PyInt 10)] Examples.graph_ab
  = ([set_value (PyInt 5) Examples.node_a; Examples.node_local;
      Examples.node_b],
     Some (KeyError "zz")).
Proof.
  rewrite (proj2 (result_values_unknown_name
                    [("a", PyInt 5); ("zz", PyInt 0); ("b", PyInt 10)]
                    Examples.graph_ab)
             [("a", PyInt 5)] "zz" (PyInt 0) [("b", PyInt 10)] eq_refl).
  - reflexivity.
  - repeat constructor.
  - reflexivity.
Defined.

End ResultValueFacts.

(** ** More on the remote backend: submission, headers, faults *)

Module SubmitFacts.
Import Remote Observe ObserveValues Steps RemoteLemmas HandleFacts LoopFacts.
Import PollFacts SerializeFacts.

Lemma reported_app a b : reported (a ++ b) = reported a + reported b.
Proof.
  induction a as [|ev a IH]; simpl; [reflexivity|].
  destruct ev; simpl; rewrite ?IH; lia.
Qed.

Lemma reported_progress chunks :
  reported (map progress chunks) = Z.of_nat (List.length (List.concat chunks)).
Proof.
  induction chunks as [|c rest IH]; simpl; [reflexivity|].
  rewrite IH, length_app. unfold progress. simpl. lia.
Qed.

Lemma posts_app a b : posts (a ++ b) = posts a ++ posts b.
Proof.
  induction a as [|ev a IH]; simpl; [reflexivity|].
  destruct ev; simpl; now rewrite ?IH.
Qed.

Lemma posts_none evs : Forall not_post evs -> posts evs = [].
Proof.
  induction 1 as [|ev evs Hev Hevs IH]; simpl; [reflexivity|].
  destruct ev; simpl in *; try exact IH. contradiction.
Qed.

Lemma receipts_app a b : receipts (a ++ b) = receipts a ++ receipts b.
Proof.
  induction a as [|ev a IH]; simpl; [reflexivity|].
  destruct ev; simpl; now rewrite ?IH.
Qed.

Lemma receipts_none evs : Forall not_receive evs -> receipts evs = [].
Proof.
  induction 1 as [|ev evs Hev Hevs IH]; simpl; [reflexivity|].
  destruct ev; simpl in *; try exact IH. contradiction.
Qed.

(** X4: when the streamed transfer returns a buffer, the byte counts it
    reported to the progress bar add up to the length of that buffer, and it
    asked for the result once. *)
Theorem download_progress_adds_up (env : Env) (self : RemoteBackend)
    (id : string) (w w' : World) (result_bytes : bytes) :
  download env self id w = (Returned result_bytes, w') ->
  exists evs,
    trace w' = trace w ++ evs
    /\ reported evs = Z.of_nat (List.length result_bytes)
    /\ downloads evs = [result_url self id].
Proof.
  rewrite download_eq.
  destruct (content_length (result_stream env id)); try discriminate.
  cbv zeta.
  destruct (ending (result_stream env id)); try discriminate.
  intros H. inversion H; subst.
  exists (EvGetResult (result_url self id)
          :: map progress (chunks (result_stream env id))).
  split; [reflexivity | split].
  - simpl. apply reported_progress.
  - simpl. now rewrite downloads_progress.
Qed.

Lemma download_progress_adds_up_witness :
  exists evs,
    trace (snd (download
                  (Examples.env [] Examples.queued Examples.three_bytes)
                  Examples.blocking_backend "job-42" (Examples.world None)))
    = trace (Examples.world None) ++ evs
    /\ reported evs = 3.
Proof.
  destruct (download_progress_adds_up
              (Examples.env [] Examples.queued Examples.three_bytes)
              Examples.blocking_backend "job-42" (Examples.world None)
              _ _ eq_refl) as (evs & Ht & Hr & _).
  exists evs. split; [exact Ht | exact Hr].
Defined.

Lemma prune_loop_same_config env new_graph fuel :
  forall cursor, keeps same_config (prune_loop env new_graph fuel cursor).
Proof.
  induction fuel as [|fuel IH]; intros cursor; simpl.
  - keeps_all ltac:(fail).
  - keeps_all ltac:(first [ apply emit_same_config | apply write_same_config
                          | apply IH ]).
Qed.

Lemma preprocess_same_config env graph : keeps same_config (preprocess env graph).
Proof.
  unfold preprocess, graph_copy.
  keeps_all ltac:(first [ apply emit_same_config | apply alloc_same_config
                        | apply prune_loop_same_config ]).
Qed.

Lemma serialize_same_config env self graph :
  keeps same_config (serialize env self graph).
Proof.
  unfold serialize. keeps_all ltac:(apply emit_same_config).
Qed.

Lemma submit_request_same_config env self data headers :
  keeps same_config (submit_request env self data headers).
Proof.
  unfold submit_request.
  keeps_all ltac:(first [ apply emit_same_config
                        | apply handle_response_same_config ]).
Qed.

Lemma receive_loop_same_config env self graph messages :
  keeps same_config (receive_loop env self graph messages).
Proof.
  induction messages as [|m rest IH]; simpl.
  - apply keeps_hang; exact _.
  - keeps_all ltac:(first [ apply emit_same_config
                          | apply handle_response_same_config | apply IH ]).
Qed.

Lemma blocking_request_same_config env self graph :
  keeps same_config (blocking_request env self graph).
Proof.
  unfold blocking_request.
  keeps_all ltac:(first [ apply emit_same_config
                        | apply preprocess_same_config
                        | apply serialize_same_config
                        | apply submit_request_same_config
                        | apply receive_loop_same_config ]).
Qed.

Lemma iter_content_grows (P : Event -> Prop) chunks :
  (forall n, P (EvProgress n)) ->
  forall result_bytes, keeps (grows_by P) (iter_content chunks result_bytes).
Proof.
  intros Hp. induction chunks as [|data rest IH]; intros buf; simpl.
  - apply keeps_ret; exact _.
  - apply keeps_bind; [exact _ | apply emit_grows; apply Hp | intros; apply IH].
Qed.

Lemma download_grows (P : Event -> Prop) env self id :
  (forall url, P (EvGetResult url)) -> (forall n, P (EvProgress n)) ->
  keeps (grows_by P) (download env self id).
Proof.
  intros Hg Hp. unfold download.
  keeps_all ltac:(first [ apply emit_grows; apply Hg
                        | apply iter_content_grows; exact Hp ]).
Qed.

Lemma get_result_grows (P : Event -> Prop) env self id :
  (forall url, P (EvGetResult url)) -> (forall n, P (EvProgress n)) ->
  keeps (grows_by P) (get_result env self id).
Proof.
  intros Hg Hp. unfold get_result.
  keeps_all ltac:(apply download_grows; assumption).
Qed.

Lemma blocking_no_save_handle env self response graph :
  keeps (grows_by not_save) (handle_response env self response graph).
Proof.
  unfold handle_response, inject, graph_node, node_execute.
  keeps_all ltac:(first [ apply emit_grows; intros ?; discriminate | apply write_grows
                        | apply get_result_grows; intros ? ?; discriminate ]).
Qed.

Lemma blocking_no_save_loop env self graph messages :
  keeps (grows_by not_save) (receive_loop env self graph messages).
Proof.
  induction messages as [|m rest IH]; simpl.
  - apply keeps_hang; exact _.
  - keeps_all ltac:(first [ apply emit_grows; intros ?; discriminate
                          | apply blocking_no_save_handle | apply IH ]).
Qed.

Lemma blocking_no_save_prune env new_graph fuel :
  forall cursor, keeps (grows_by not_save) (prune_loop env new_graph fuel cursor).
Proof.
  induction fuel as [|fuel IH]; intros cursor; simpl.
  - keeps_all ltac:(fail).
  - keeps_all ltac:(first [ apply emit_grows; intros ?; discriminate | apply write_grows
                          | apply IH ]).
Qed.

Lemma inject_data_same_config graph r :
  keeps same_config (inject_data graph r).
Proof.
  unfold inject_data, inject.
  keeps_all ltac:(first [ apply emit_same_config | apply write_same_config ]).
Qed.

(** X5: a blocking call never writes the configuration: whatever the server
    answers and however the call ends, the job id in memory and the job id
    as saved are what they were before the call. *)
Theorem blocking_call_keeps_config (env : Env) (self : RemoteBackend)
    (graph : GraphRef) (w : World) :
  blocking self = true ->
  CONFIG (snd (call env self graph w)) = CONFIG w
  /\ saved_JOB_ID (snd (call env self graph w)) = saved_JOB_ID w
  /\ exists evs,
       trace (snd (call env self graph w)) = trace w ++ evs
       /\ Forall not_save evs.
Proof.
  intros Hb.
  assert (keeps same_config (call env self graph)) as Hk.
  { unfold call. rewrite Hb.
    keeps_all ltac:(first [ apply blocking_request_same_config
                          | apply inject_data_same_config ]). }
  destruct (Hk w) as [H1 H2]. split; [exact H1 | split; [exact H2 |]].
  assert (keeps (grows_by not_save)
            (call env self graph)) as Hg.
  { unfold call. rewrite Hb.
    unfold blocking_request, preprocess, graph_copy, serialize,
      submit_request, inject_data, inject.
    keeps_all ltac:(first
      [ apply emit_grows; intros ?; discriminate
      | apply write_grows | apply alloc_grows
      | apply blocking_no_save_loop | apply blocking_no_save_handle
      | apply blocking_no_save_prune ]). }
  exact (Hg w).
Qed.

Lemma blocking_call_keeps_config_witness :
  let outcome :=
    call (Examples.env [Examples.queued; Examples.completed_inline]
            Examples.queued Examples.empty_stream)
      Examples.blocking_backend 0%nat (Examples.world (Some "job-7")) in
  JOB_ID (CONFIG (snd outcome)) = Some "job-7"
  /\ saved_JOB_ID (snd outcome) = Some "job-7".
Proof.
  destruct (blocking_call_keeps_config
              (Examples.env [Examples.queued; Examples.completed_inline]
                 Examples.queued Examples.empty_stream)
              Examples.blocking_backend 0%nat (Examples.world (Some "job-7"))
              eq_refl) as (Hc & Hs & _).
  cbv zeta. rewrite Hc, Hs. split; reflexivity.
Defined.

Lemma submit_request_eq env self data headers w :
  submit_request env self data headers w
  = let sent := set_header "Content-Type" "application/octet-stream" headers in
    let w1 := logged w [EvPost (address self ++ "/request") data sent] in
    if status_code (post_reply env) =? 200
    then match handle_response env self (json (post_reply env)) None w1 with
         | (Returned _, w') => (Returned (json (post_reply env)), w')
         | (Raised e, w') => (Raised e, w')
         | (Hung, w') => (Hung, w')
         end
    else (Raised (ConnectionError (detail (post_reply env))), w1).
Proof.
  unfold submit_request. cbv zeta. unfold bind at 1. rewrite emit_eq.
  destruct (status_code (post_reply env) =? 200); [|reflexivity].
  unfold bind, ret.
  match goal with
  | |- context [handle_response env self ?r None ?w1] =>
      destruct (handle_response env self r None w1) as [[x | e |] w']
  end; reflexivity.
Qed.

(** The world once [CONFIG.API.JOB_ID = job] and [CONFIG.save()] have run. *)
Lemma persisted_eq job w :
  snd (save (snd (set_JOB_ID job w)))
  = {| heap := heap w;
       CONFIG := {| HOST := HOST (CONFIG w); SSL := SSL (CONFIG w);
                    ZLIB := ZLIB (CONFIG w); FORMAT := FORMAT (CONFIG w);
                    APIKEY := APIKEY (CONFIG w); JOB_ID := job |};
       saved_JOB_ID := job;
       trace := trace w ++ [EvSave job] |}.
Proof. reflexivity. Qed.

Lemma non_blocking_submit_eq env self graph w :
  job_id self = None ->
  non_blocking_request env self graph w
  = match encoded env self (nth graph (heap w) []) with
    | Returned (data, headers) =>
        match submit_request env self data headers
                (logged w [EvSerialize graph]) with
        | (Returned response, w') =>
            (Returned None, snd (save (snd (set_JOB_ID (Some (id response)) w'))))
        | (Raised e, w') => (Raised e, w')
        | (Hung, w') => (Hung, w')
        end
    | Raised e => (Raised e, logged w [EvSerialize graph])
    | Hung => (Hung, logged w [EvSerialize graph])
    end.
Proof.
  intros Hj. unfold non_blocking_request. rewrite Hj.
  unfold bind at 1. rewrite serialize_eq.
  destruct (encoded env self (nth graph (heap w) []))
    as [[data headers] | e |]; reflexivity.
Qed.




Lemma preprocess_summary env graph w :
  (forall n ns, (List.length (prune env n ns) <= List.length ns)%nat) ->
  exists w2 evs,
    preprocess env graph w = (Returned (List.length (heap w)), w2)
    /\ trace w2 = trace w ++ EvCopy graph (List.length (heap w)) :: evs
    /\ Forall (prunes (List.length (heap w))) evs
    /\ nth (List.length (heap w)) (heap w2) []
       = pruned env (List.length (nth graph (heap w) [])) 0
           (nth graph (heap w) [])
    /\ CONFIG w2 = CONFIG w /\ saved_JOB_ID w2 = saved_JOB_ID w.
Proof.
  intros Hshrink.
  pose proof (preprocess_returns env graph w Hshrink) as Hret.
  destruct (preprocess_events env graph w) as (evs & Ht & Hp).
  destruct (preprocess_world env graph w) as (Hcopy & Hnew & Heq).
  destruct (prune_loop_heap env (List.length (heap w))
              (List.length (nth graph (heap w) [])) 0
              (snd (graph_copy graph w)) Hnew) as [Hheap _].
  rewrite Hcopy in Hheap.
  destruct (preprocess_same_config env graph w) as [Hc Hs].
  assert (snd (preprocess env graph w)
          = snd (prune_loop env (List.length (heap w))
                   (List.length (nth graph (heap w) [])) 0
                   (snd (graph_copy graph w)))) as Hw.
  { rewrite Heq.
    destruct (prune_loop env (List.length (heap w))
                (List.length (nth graph (heap w) [])) 0
                (snd (graph_copy graph w))) as [[[] | e |] w2]; reflexivity. }
  rewrite <- Hw in Hheap.
  destruct (preprocess env graph w) as [r w2]. simpl in *. subst r.
  exists w2, evs. repeat split; assumption.
Qed.

Lemma prunes_not_post g evs : Forall (prunes g) evs -> Forall not_post evs.
Proof.
  intros H. eapply Forall_impl; [|exact H].
  intros ev (node & -> & _). exact I.
Qed.

Lemma prunes_not_receive g evs : Forall (prunes g) evs -> Forall not_receive evs.
Proof.
  intros H. eapply Forall_impl; [|exact H].
  intros ev (node & -> & _). exact I.
Qed.

Lemma handle_response_not_post env self response graph :
  keeps (grows_by not_post) (handle_response env self response graph).
Proof.
  unfold handle_response, inject, graph_node, node_execute.
  keeps_all ltac:(first [ apply emit_grows; exact I | apply write_grows
                        | apply get_result_grows; intros; exact I ]).
Qed.

Lemma receive_loop_not_post env self graph messages :
  keeps (grows_by not_post) (receive_loop env self graph messages).
Proof.
  induction messages as [|m rest IH]; simpl.
  - apply keeps_hang; exact _.
  - keeps_all ltac:(first [ apply emit_grows; exact I
                          | apply handle_response_not_post | apply IH ]).
Qed.

(** What follows the posting of a request in [blocking_request]. *)
Lemma after_post env self graph data headers w :
  let sent := set_header "Content-Type" "application/octet-stream" headers in
  let outcome :=
    (submit_request env self data headers ;;;
     receive_loop env self graph (sio_messages env)) w in
  exists rest,
    trace (snd outcome)
    = trace w ++ EvPost (address self ++ "/request") data sent :: rest
    /\ Forall not_post rest
    /\ (status_code (post_reply env) <> 200 ->
        rest = []
        /\ fst outcome = Raised (ConnectionError (detail (post_reply env)))).
Proof.
  intros sent outcome.
  assert (outcome
          = match submit_request env self data headers w with
            | (Returned _, w') =>
                receive_loop env self graph (sio_messages env) w'
            | (Raised e, w') => (Raised e, w')
            | (Hung, w') => (Hung, w')
            end) as -> by reflexivity.
  rewrite submit_request_eq. cbv zeta. fold sent.
  destruct (status_code (post_reply env) =? 200) eqn:E.
  - assert (keeps (grows_by not_post)
              (handle_response env self (json (post_reply env)) None ;;;
               receive_loop env self graph (sio_messages env))) as Hk.
    { keeps_all ltac:(first [ apply handle_response_not_post
                            | apply receive_loop_not_post ]). }
    destruct (Hk (logged w [EvPost (address self ++ "/request") data sent]))
      as (rest & Ht & Hp).
    exists rest. split; [|split; [exact Hp |]].
    + unfold bind in Ht.
      destruct (handle_response env self (json (post_reply env)) None
                  (logged w [EvPost (address self ++ "/request") data sent]))
        as [[x | e |] w']; simpl in *; rewrite Ht, <- app_assoc; reflexivity.
    + intros Hne. apply Z.eqb_eq in E. contradiction.
  - exists []. split; [reflexivity | split; [constructor |]].
    intros _. split; reflexivity.
Qed.

Lemma blocking_prefix env self graph w sid :
  sio_connect env = Returned sid ->
  (forall n ns, (List.length (prune env n ns) <= List.length ns)%nat) ->
  let new_graph := List.length (heap w) in
  let nodes := nth graph (heap w) [] in
  exists w2 evs,
    trace w2 = trace w ++ EvConnect (ws_address self)
                          :: EvCopy graph new_graph :: evs
    /\ Forall (prunes new_graph) evs
    /\ blocking_request env self graph w
       = match encoded env self (pruned env (List.length nodes) 0 nodes) with
         | Returned (data, headers) =>
             (submit_request env self data
                (set_header "session_id" sid headers) ;;;
              receive_loop env self graph (sio_messages env))
               (logged w2 [EvSerialize new_graph])
         | Raised e => (Raised e, logged w2 [EvSerialize new_graph])
         | Hung => (Hung, logged w2 [EvSerialize new_graph])
         end.
Proof.
  intros Hc Hshrink new_graph nodes.
  rewrite (blocking_request_eq env self graph w sid Hc).
  destruct (preprocess_summary env graph
              (logged w [EvConnect (ws_address self)]) Hshrink)
    as (w2 & evs & Hpre & Ht & Hp & Hheap & _).
  change (heap (logged w [EvConnect (ws_address self)])) with (heap w) in *.
  fold new_graph nodes in Hpre, Ht, Hp, Hheap.
  exists w2, evs. rewrite Hpre, Hheap.
  split; [|split; [exact Hp | reflexivity]].
  rewrite Ht. simpl. now rewrite <- app_assoc.
Qed.

Lemma encoded_unsupported env self nodes :
  String.eqb (format self) "json" = false ->
  String.eqb (format self) "pt" = false ->
  encoded env self nodes = Raised (UnboundLocalError "data").
Proof. intros H1 H2. unfold encoded. now rewrite H1, H2. Qed.

(** X7: with a format other than ["json"] and ["pt"], [serialize] raises
    [UnboundLocalError]; a non-blocking submission then raises it having
    posted nothing, and a blocking request raises it after the websocket is
    connected and the graph copied, having posted nothing and received
    nothing. *)
Theorem unsupported_format_posts_nothing (env : Env) (self : RemoteBackend)
    (graph : GraphRef) (w : World) :
  String.eqb (format self) "json" = false ->
  String.eqb (format self) "pt" = false ->
  (forall g w1,
     serialize env self g w1
     = (Raised (UnboundLocalError "data"), logged w1 [EvSerialize g]))
  /\ (job_id self = None ->
      non_blocking_request env self graph w
      = (Raised (UnboundLocalError "data"), logged w [EvSerialize graph]))
  /\ (forall sid,
        sio_connect env = Returned sid ->
        (forall n ns, (List.length (prune env n ns) <= List.length ns)%nat) ->
        fst (blocking_request env self graph w)
        = Raised (UnboundLocalError "data")
        /\ exists evs,
             trace (snd (blocking_request env self graph w))
             = trace w ++ EvConnect (ws_address self) :: evs
             /\ posts evs = [] /\ receipts evs = []).
Proof.
  intros H1 H2. split; [|split].
  - intros g w1. rewrite serialize_eq.
    now rewrite (encoded_unsupported env self _ H1 H2).
  - intros Hj. rewrite (non_blocking_submit_eq env self graph w Hj).
    now rewrite (encoded_unsupported env self _ H1 H2).
  - intros sid Hc Hshrink.
    destruct (blocking_prefix env self graph w sid Hc Hshrink)
      as (w2 & evs & Ht & Hp & Heq).
    rewrite Heq, (encoded_unsupported env self _ H1 H2).
    split; [reflexivity |].
    exists (EvCopy graph (List.length (heap w))
            :: evs ++ [EvSerialize (List.length (heap w))]).
    split; [|split].
    + simpl. rewrite Ht, <- app_assoc. reflexivity.
    + simpl. rewrite posts_app, (posts_none evs (prunes_not_post _ _ Hp)).
      reflexivity.
    + simpl. rewrite receipts_app,
        (receipts_none evs (prunes_not_receive _ _ Hp)).
      reflexivity.
Qed.

Lemma unsupported_format_posts_nothing_witness :
  non_blocking_request
    (Examples.env [] Examples.queued Examples.empty_stream)
    MoreExamples.binary_backend 0%nat (Examples.world None)
  = (Raised (UnboundLocalError "data"),
     logged (Examples.world None) [EvSerialize 0%nat]).
Proof.
  apply (unsupported_format_posts_nothing
           (Examples.env [] Examples.queued Examples.empty_stream)
           MoreExamples.binary_backend 0%nat (Examples.world None));
    reflexivity.
Defined.

(** X8: a blocking request whose graph can be encoded posts exactly one
    request, to [address/request], with the encoding of the pruned copy as
    its body; its headers carry the session id the websocket gave, the
    content type [application/octet-stream], and the model key, format and
    compression flag of the backend. *)
Theorem blocking_post_carries_session (env : Env) (self : RemoteBackend)
    (graph : GraphRef) (w : World) (sid : string) (data : bytes)
    (headers : list (string * string)) :
  sio_connect env = Returned sid ->
  (forall n ns, (List.length (prune env n ns) <= List.length ns)%nat) ->
  encoded env self
    (pruned env (List.length (nth graph (heap w) [])) 0 (nth graph (heap w) []))
  = Returned (data, headers) ->
  let sent := set_header "Content-Type" "application/octet-stream"
                (set_header "session_id" sid headers) in
  (exists evs,
     trace (snd (blocking_request env self graph w)) = trace w ++ evs
     /\ posts evs = [((address self ++ "/request")%string, data, sent)])
  /\ header "session_id" sent = Some sid
  /\ header "Content-Type" sent = Some "application/octet-stream"
  /\ header "model_key" sent = Some (model_key self)
  /\ header "format" sent = Some (format self)
  /\ header "zlib" sent = Some (str_bool (zlib self)).
Proof.
  intros Hc Hshrink Henc sent. split.
  - destruct (blocking_prefix env self graph w sid Hc Hshrink)
      as (w2 & evs & Ht & Hp & Heq).
    rewrite Heq, Henc.
    destruct (after_post env self graph data (set_header "session_id" sid headers)
                (logged w2 [EvSerialize (List.length (heap w))]))
      as (rest & Hr & Hnp & _).
    fold sent in Hr.
    exists (EvConnect (ws_address self) :: EvCopy graph (List.length (heap w))
            :: evs ++ EvSerialize (List.length (heap w))
            :: EvPost (address self ++ "/request") data sent :: rest).
    split.
    + rewrite Hr. simpl. rewrite Ht, <- !app_assoc. reflexivity.
    + simpl. rewrite posts_app, (posts_none evs (prunes_not_post _ _ Hp)).
      simpl. now rewrite (posts_none rest Hnp).
  - unfold encoded in Henc.
    assert (headers = [ ("model_key", model_key self); ("format", format self);
                        ("zlib", str_bool (zlib self)) ]) as Hh.
    { destruct (String.eqb (format self) "json");
        [now inversion Henc |].
      destruct (String.eqb (format self) "pt"); [now inversion Henc |].
      discriminate Henc. }
    subst sent. rewrite Hh. repeat split.
Qed.

Lemma blocking_post_carries_session_witness :
  exists evs,
    trace (snd (blocking_request
                  (Examples.env [Examples.completed_inline] Examples.queued
                     Examples.empty_stream)
                  Examples.blocking_backend 0%nat (Examples.world None)))
    = trace (Examples.world None) ++ evs
    /\ posts evs
       = [("https://ndif.dev/request", [x7b; x7d],
           [("model_key", "model"); ("format", "json"); ("zlib", "False");
            ("session_id", "sid-1");
            ("Content-Type", "application/octet-stream")])].
Proof.
  exact (proj1 (blocking_post_carries_session
                  (Examples.env [Examples.completed_inline] Examples.queued
                     Examples.empty_stream)
                  Examples.blocking_backend 0%nat (Examples.world None)
                  "sid-1" _ _ eq_refl SerializeFacts.drop_node_shrinks
                  eq_refl)).
Defined.

(** X9: a blocking request that cannot get started ends before any message
    is received: if the websocket does not connect, its exception is raised
    and nothing is copied, serialized or posted; if the server answers the
    submission with a status other than 200, [ConnectionError] is raised
    with the reply's detail after that one post, no message is taken from
    the websocket, and no result is injected. *)
Theorem blocking_request_fails_early (env : Env) (self : RemoteBackend)
    (graph : GraphRef) (w : World) :
  (forall e,
     sio_connect env = Raised e ->
     blocking_request env self graph w
     = (Raised e, logged w [EvConnect (ws_address self)]))
  /\ (forall sid data headers,
        sio_connect env = Returned sid ->
        (forall n ns, (List.length (prune env n ns) <= List.length ns)%nat) ->
        encoded env self
          (pruned env (List.length (nth graph (heap w) [])) 0
             (nth graph (heap w) []))
        = Returned (data, headers) ->
        status_code (post_reply env) <> 200 ->
        fst (blocking_request env self graph w)
        = Raised (ConnectionError (detail (post_reply env)))
        /\ exists evs,
             trace (snd (blocking_request env self graph w)) = trace w ++ evs
             /\ receipts evs = []
             /\ Forall (fun ev => forall g payload, ev <> EvInject g payload)
                  evs).
Proof.
  split.
  - intros e He. unfold blocking_request. unfold bind at 1. rewrite emit_eq.
    unfold bind, lift. now rewrite He.
  - intros sid data headers Hc Hshrink Henc Hne.
    destruct (blocking_prefix env self graph w sid Hc Hshrink)
      as (w2 & evs & Ht & Hp & Heq).
    rewrite Heq, Henc.
    destruct (after_post env self graph data (set_header "session_id" sid headers)
                (logged w2 [EvSerialize (List.length (heap w))]))
      as (rest & Hr & _ & Hfail).
    destruct (Hfail Hne) as [-> Hraised].
    split; [exact Hraised |].
    eexists. split; [rewrite Hr; simpl; rewrite Ht, <- !app_assoc; reflexivity |].
    split.
    + simpl. rewrite receipts_app,
        (receipts_none evs (prunes_not_receive _ _ Hp)).
      reflexivity.
    + constructor; [discriminate |]. constructor; [discriminate |].
      apply Forall_app. split.
      * eapply Forall_impl; [|exact Hp].
        intros ev (node & -> & _). discriminate.
      * repeat constructor; discriminate.
Qed.

Lemma blocking_request_fails_early_witness :
  fst (blocking_request MoreExamples.refusing_env Examples.blocking_backend
         0%nat (Examples.world None))
  = Raised (ConnectionError "no such model").
Proof.
  refine (proj1 (proj2 (blocking_request_fails_early MoreExamples.refusing_env
                          Examples.blocking_backend 0%nat (Examples.world None))
                   "sid-1" _ _ eq_refl SerializeFacts.drop_node_shrinks
                   eq_refl _)).
  discriminate.
Defined.

(** X10: [handle_response] called without a graph, as [get_response] and
    [submit_request] call it, cannot attribute an error to a node: an error
    status with a node id raises [AttributeError] and prints nothing, and a
    Stream status always raises.  So a non-blocking poll answered with such
    an error status raises [AttributeError], the persisted job id cleared. *)
Theorem error_without_graph (env : Env) (self : RemoteBackend)
    (response : ResponseModel) (graph : GraphRef) (w : World) :
  (status response = NNSIGHT_ERROR ->
   forall node_id message,
     data response = ErrorData node_id message ->
     handle_response env self response None w
     = (Raised (AttributeError "nodes"), logged w [EvLog response])
     /\ forall j,
          job_id self = Some j ->
          status_code (get_reply env (show_job_id (job_id self))) = 200 ->
          json (get_reply env (show_job_id (job_id self))) = response ->
          non_blocking_request env self graph w
          = (Raised (AttributeError "nodes"),
             cleared (logged w [EvGetResponse (status_url self);
                                EvLog response])))
  /\ (status response = STREAM ->
      exists e, fst (handle_response env self response None w) = Raised e).
Proof.
  split.
  - intros Hs node_id message Hd.
    assert (forall w0,
              handle_response env self response None w0
              = (Raised (AttributeError "nodes"), logged w0 [EvLog response]))
      as Hh.
    { intros w0. unfold handle_response. rewrite Hs.
      unfold bind. rewrite emit_eq. reflexivity. }
    split; [apply Hh |].
    intros j Hj Hok Hjson. rewrite (poll_eq env self graph w j Hj).
    rewrite get_response_eq. cbv zeta. rewrite Hok, Hjson. simpl.
    rewrite Hh, logged_logged. reflexivity.
  - intros Hs. unfold handle_response. rewrite Hs. unfold bind at 1.
    rewrite emit_eq.
    destruct (data response) as [| r | i d | n m];
      try (eexists; reflexivity).
    + destruct r as [|a [|b [|c r]]]; eexists; reflexivity.
    + unfold bind. destruct d as [|entry d]; simpl; eexists; reflexivity.
Qed.

Lemma error_without_graph_witness :
  fst (non_blocking_request
         (Examples.env [] Examples.failed Examples.empty_stream)
         (Examples.polling_backend (Some "job-42")) 0%nat
         (Examples.world (Some "job-42")))
  = Raised (AttributeError "nodes").
Proof.
  destruct (error_without_graph
              (Examples.env [] Examples.failed Examples.empty_stream)
              (Examples.polling_backend (Some "job-42")) Examples.failed 0%nat
              (Examples.world (Some "job-42"))) as [Herr _].
  destruct (Herr eq_refl 2 "division by zero" eq_refl) as [_ Hpoll].
  rewrite (Hpoll "job-42" eq_refl eq_refl eq_refl). reflexivity.
Defined.

End SubmitFacts.

(** ** Batching with the vLLM model *)

Module VLLMFacts.
Import Remote VLLM.

Lemma append_prompts_list prompts :
  forall bprompts,
    append_prompts (PyList bprompts) prompts
    = Returned (PyList (bprompts ++ prompts)).
Proof.
  induction prompts as [|p rest IH]; intros bp; simpl.
  - now rewrite app_nil_r.
  - rewrite IH, <- app_assoc. reflexivity.
Qed.

Lemma append_params_list {A} g kwargs (prompts : list A) :
  forall bparams,
    append_params (PyInt g) (PyList bparams)
      (map (fun _ => NNsightSamplingParams kwargs) prompts)
    = Returned
        (PyList (bparams
                 ++ map (fun _ => NNsightSamplingParams
                                    (set_item "invoker_group" (PyInt g) kwargs))
                        prompts)).
Proof.
  induction prompts as [|p rest IH]; intros bp; simpl.
  - now rewrite app_nil_r.
  - rewrite IH, <- app_assoc. reflexivity.
Qed.

Lemma prepare_raw inp :
  raw inp ->
  _prepare_input inp
  = Returned (([PyList (prompts_of inp);
                PyList (map (fun _ => NNsightSamplingParams (snd inp))
                          (prompts_of inp))],
               [("processed", PyTrue)]),
              Z.of_nat (List.length (prompts_of inp))).
Proof.
  destruct inp as [args kwargs]. intros [Hself Hproc]. simpl in *.
  unfold _prepare_input. now rewrite Hself, Hproc.
Qed.

Lemma batch_step inp bprompts bparams g :
  _batch (Some ([PyList bprompts; PyList bparams],
                [("invoker_group", PyInt g)]))
    ([PyList (prompts_of inp);
      PyList (map (fun _ => NNsightSamplingParams (snd inp)) (prompts_of inp))],
     [("processed", PyTrue)])
  = Returned ([PyList (bprompts ++ prompts_of inp);
               PyList (bparams ++ params_of g inp)],
              [("invoker_group", PyInt (g + 1))]).
Proof.
  unfold _batch. simpl.
  rewrite append_prompts_list, append_params_list. reflexivity.
Qed.

Lemma batch_from_none call :
  _batch None call
  = _batch (Some ([PyList []; PyList []], [("invoker_group", PyInt 0)])) call.
Proof. reflexivity. Qed.

Lemma batch_loop_run invoker_inputs :
  Forall raw invoker_inputs ->
  forall groups start bprompts bparams g,
    batch_loop invoker_inputs groups start
      (Some ([PyList bprompts; PyList bparams], [("invoker_group", PyInt g)]))
    = Returned
        (Some ([PyList (bprompts ++ all_prompts invoker_inputs);
                PyList (bparams ++ all_params g invoker_inputs)],
               [("invoker_group",
                 PyInt (g + Z.of_nat (List.length invoker_inputs)))]),
         groups ++ Tracer.groups_from start (sizes invoker_inputs)).
Proof.
  induction 1 as [|inp rest Hraw Hrest IH]; intros groups start bp bpa g.
  - simpl. now rewrite !app_nil_r, Z.add_0_r.
  - cbn [batch_loop]. rewrite (prepare_raw inp Hraw), batch_step, IH.
    unfold all_prompts. cbn [flat_map all_params sizes map Tracer.groups_from].
    rewrite <- !app_assoc. cbn [List.length].
    replace (g + 1 + Z.of_nat (List.length rest))
      with (g + Z.of_nat (S (List.length rest))) by lia.
    reflexivity.
Qed.

Lemma batch_run inp rest :
  Forall raw (inp :: rest) ->
  batch (inp :: rest)
  = Returned
      (([PyList (all_prompts (inp :: rest));
         PyList (all_params 0 (inp :: rest))],
        [("invoker_group", PyInt (Z.of_nat (List.length (inp :: rest))))]),
       Tracer.groups_from 0 (sizes (inp :: rest))).
Proof.
  intros Hraw. inversion Hraw as [|? ? Hinp Hrest]; subst.
  unfold batch. cbn [batch_loop].
  rewrite (prepare_raw inp Hinp), batch_from_none, batch_step.
  rewrite (batch_loop_run rest Hrest).
  unfold all_prompts. cbn [flat_map all_params sizes map Tracer.groups_from].
  cbn [app List.length].
  replace (0 + 1 + Z.of_nat (List.length rest))
    with (Z.of_nat (S (List.length rest))) by lia.
  reflexivity.
Qed.

Lemma length_params_of g inp :
  List.length (params_of g inp) = List.length (prompts_of inp).
Proof. unfold params_of. apply length_map. Qed.

Lemma length_all_params invoker_inputs :
  forall g,
    List.length (all_params g invoker_inputs)
    = List.length (all_prompts invoker_inputs).
Proof.
  unfold all_prompts.
  induction invoker_inputs as [|inp rest IH]; intros g; simpl; [reflexivity|].
  now rewrite !length_app, length_params_of, IH.
Qed.

Lemma total_sizes invoker_inputs :
  Tracer.total (sizes invoker_inputs)
  = Z.of_nat (List.length (all_prompts invoker_inputs)).
Proof.
  unfold all_prompts.
  induction invoker_inputs as [|inp rest IH]; simpl; [reflexivity|].
  rewrite length_app, IH. lia.
Qed.

Lemma firstn_sizes i invoker_inputs :
  firstn i (sizes invoker_inputs) = sizes (firstn i invoker_inputs).
Proof. unfold sizes. apply firstn_map. Qed.

Lemma slice_prompts invoker_inputs :
  forall i inp,
    nth_error invoker_inputs i = Some inp ->
    firstn (List.length (prompts_of inp))
      (skipn (List.length (all_prompts (firstn i invoker_inputs)))
         (all_prompts invoker_inputs))
    = prompts_of inp.
Proof.
  unfold all_prompts.
  induction invoker_inputs as [|x rest IH]; intros [|i] inp H;
    simpl in *; try discriminate.
  - inversion H; subst. rewrite firstn_app, Nat.sub_diag, firstn_all. simpl.
    apply app_nil_r.
  - rewrite length_app, skipn_app, skipn_all2 by lia. simpl.
    replace (List.length (prompts_of x)
             + List.length (flat_map prompts_of (firstn i rest))
             - List.length (prompts_of x))%nat
      with (List.length (flat_map prompts_of (firstn i rest))) by lia.
    now apply IH.
Qed.

Lemma slice_params invoker_inputs :
  forall g i inp,
    nth_error invoker_inputs i = Some inp ->
    firstn (List.length (prompts_of inp))
      (skipn (List.length (all_prompts (firstn i invoker_inputs)))
         (all_params g invoker_inputs))
    = params_of (g + Z.of_nat i) inp.
Proof.
  unfold all_prompts.
  induction invoker_inputs as [|x rest IH]; intros g [|i] inp H;
    simpl in *; try discriminate.
  - inversion H; subst. rewrite <- (length_params_of g inp).
    rewrite firstn_app, Nat.sub_diag, firstn_all. simpl.
    rewrite app_nil_r. f_equal. lia.
  - rewrite length_app, skipn_app, skipn_all2
      by (rewrite length_params_of; lia).
    simpl. rewrite length_params_of.
    replace (List.length (prompts_of x)
             + List.length (flat_map prompts_of (firstn i rest))
             - List.length (prompts_of x))%nat
      with (List.length (flat_map prompts_of (firstn i rest))) by lia.
    rewrite (IH (g + 1) i inp H). f_equal. lia.
Qed.

(** X11: an invocation as a user writes it always prepares: its batch size
    is the number of its prompts, a list argument counting for its items
    and any other argument for one; the prepared input is marked as
    processed, and preparing it again returns it unchanged with the same
    batch size.  An input marked as processed that has no positional
    argument raises [IndexError]. *)
Theorem prepare_input_is_stable (inp : Call) :
  raw inp ->
  (exists prepared n,
     _prepare_input inp = Returned (prepared, n)
     /\ n = Z.of_nat (List.length (flat_map as_list (fst inp)))
     /\ get_item "processed" (snd prepared) = Some PyTrue
     /\ _prepare_input prepared = Returned (prepared, n))
  /\ (forall kwargs,
        has_key "self" kwargs = false ->
        has_key "processed" kwargs = true ->
        _prepare_input ([], kwargs) = Raised IndexError).
Proof.
  intros Hraw. split.
  - eexists. eexists. split; [apply (prepare_raw inp Hraw) |].
    split; [reflexivity | split; [reflexivity |]].
    unfold _prepare_input. simpl. reflexivity.
  - intros kwargs Hs Hp. unfold _prepare_input. now rewrite Hs, Hp.
Qed.

Lemma prepare_input_is_stable_witness :
  exists prepared,
    _prepare_input
      ([PyList [PyStr "Hello"; PyStr "World"]; PyStr "Bye"],
       [("temperature", PyInt 0)])
    = Returned (prepared, 3)
    /\ _prepare_input prepared = Returned (prepared, 3).
Proof.
  destruct (prepare_input_is_stable
              ([PyList [PyStr "Hello"; PyStr "World"]; PyStr "Bye"],
               [("temperature", PyInt 0)]))
    as [(prepared & n & H & Hn & _ & Hagain) _].
  - split; reflexivity.
  - simpl in Hn. subst n. exists prepared. split; assumption.
Defined.

(** X12: [Tracer.batch] with the vLLM model, on one or more invocations as
    users write them, returns: the merged prompts are the invocations'
    prompts in submission order, the merged parameters hold one object per
    prompt, built from that prompt's invocation's keyword arguments, and the
    counter [invoker_group] of the merged input is the number of
    invocations. *)
Theorem vllm_batch_merges_in_order (inp : Call) (rest : list Call) :
  Forall raw (inp :: rest) ->
  exists bprompts bparams groups,
    batch (inp :: rest)
    = Returned (([PyList bprompts; PyList bparams],
                 [("invoker_group",
                   PyInt (Z.of_nat (List.length (inp :: rest))))]), groups)
    /\ bprompts = flat_map prompts_of (inp :: rest)
    /\ bparams = all_params 0 (inp :: rest)
    /\ List.length bparams = List.length bprompts
    /\ List.length groups = List.length (inp :: rest).
Proof.
  intros Hraw. eexists. eexists. eexists.
  split; [apply (batch_run inp rest Hraw) |].
  split; [reflexivity | split; [reflexivity | split]].
  - apply length_all_params.
  - rewrite TracerFacts.groups_from_length. apply length_map.
Qed.

Lemma vllm_batch_merges_in_order_witness :
  exists bprompts bparams groups,
    batch two_invocations
    = Returned (([PyList bprompts; PyList bparams],
                 [("invoker_group", PyInt 2)]), groups)
    /\ bprompts = [PyStr "Hello"; PyStr "World"; PyStr "Bye"]
    /\ bparams
       = [NNsightSamplingParams
            [("temperature", PyInt 0); ("invoker_group", PyInt 0)];
          NNsightSamplingParams
            [("temperature", PyInt 0); ("invoker_group", PyInt 0)];
          NNsightSamplingParams [("invoker_group", PyInt 1)]].
Proof.
  destruct (vllm_batch_merges_in_order
              ([PyList [PyStr "Hello"; PyStr "World"]],
               [("temperature", PyInt 0)])
              [([PyStr "Bye"], [])])
    as (bp & bpa & groups & H & Hbp & Hbpa & _).
  - repeat constructor.
  - exists bp, bpa, groups.
    split; [exact H | split; [exact Hbp | exact Hbpa]].
Defined.

(** X13: the group [Tracer.batch] records for an invocation cuts that
    invocation out of what the vLLM model merged: the [length] prompts from
    [start] on are the invocation's prompts, and the parameters at the same
    positions are the objects of that invocation, each carrying the
    invocation's number as [invoker_group]. *)
Theorem vllm_group_selects_invocation (invoker_inputs : list Call)
    (merged : Call) (groups : list (Z * Z)) :
  Forall raw invoker_inputs ->
  batch invoker_inputs = Returned (merged, groups) ->
  forall i inp start length,
    nth_error invoker_inputs i = Some inp ->
    nth_error groups i = Some (start, length) ->
    exists bprompts bparams,
      fst merged = [PyList bprompts; PyList bparams]
      /\ firstn (Z.to_nat length) (skipn (Z.to_nat start) bprompts)
         = prompts_of inp
      /\ firstn (Z.to_nat length) (skipn (Z.to_nat start) bparams)
         = params_of (Z.of_nat i) inp.
Proof.
  intros Hraw Hbatch i inp start length Hi Hg.
  destruct invoker_inputs as [|x rest]; [destruct i; discriminate |].
  rewrite (batch_run x rest Hraw) in Hbatch.
  injection Hbatch as Hmerged Hgroups. subst merged groups. cbn [fst].
  change (nth_error (Tracer.groups_from 0 (sizes (x :: rest))) i
          = Some (start, length)) in Hg.
  apply TracerFacts.groups_from_nth_inv in Hg as [Hsize ->].
  unfold sizes in Hsize. rewrite nth_error_map, Hi in Hsize.
  simpl in Hsize. inversion Hsize; subst length.
  rewrite firstn_sizes, total_sizes, Z.add_0_l, !Nat2Z.id.
  eexists. eexists. split; [reflexivity | split].
  - exact (slice_prompts (x :: rest) i inp Hi).
  - pose proof (slice_params (x :: rest) 0 i inp Hi) as Hq.
    rewrite Z.add_0_l in Hq. exact Hq.
Qed.

Lemma vllm_group_selects_invocation_witness :
  exists bprompts bparams,
    firstn 1 (skipn 2 bprompts) = [PyStr "Bye"]
    /\ firstn 1 (skipn 2 bparams)
       = [NNsightSamplingParams [("invoker_group", PyInt 1)]].
Proof.
  destruct (vllm_group_selects_invocation two_invocations _ _
              ltac:(repeat constructor) eq_refl
              1%nat ([PyStr "Bye"], []) 2 1 eq_refl eq_refl)
    as (bp & bpa & _ & Hp & Hq).
  exists bp, bpa. split; [exact Hp | exact Hq].
Defined.

End VLLMFacts.

(** ** Planning a sequence of invocations in two parts *)

Module TracerMore.
Import Tracer TracerFacts.

Lemma groups_from_app l1 :
  forall start l2,
    groups_from start (l1 ++ l2)
    = groups_from start l1 ++ groups_from (start + total l1) l2.
Proof.
  induction l1 as [|l rest IH]; intros start l2; simpl.
  - now rewrite Z.add_0_r.
  - rewrite IH. f_equal. f_equal. f_equal. lia.
Qed.

Lemma groups_from_shift ls :
  forall start,
    groups_from start ls
    = map (fun g => (fst g + start, snd g)) (groups_from 0 ls).
Proof.
  induction ls as [|l rest IH]; intros start; simpl; [reflexivity|].
  f_equal. rewrite (IH (start + l)), (IH l), map_map.
  apply map_ext. intros [s n]; simpl. f_equal. lia.
Qed.

Lemma batch_loop_app model a :
  forall b groups start batched_input,
    batch_loop model (a ++ b) groups start batched_input
    = let '(merged, groups') := batch_loop model a groups start batched_input in
      batch_loop model b groups' (start + total (lengths model a)) merged.
Proof.
  induction a as [|inp rest IH]; intros b groups start bi; simpl.
  - now rewrite Z.add_0_r.
  - destruct (_prepare_input model inp) as [prepared size] eqn:E; simpl.
    rewrite IH.
    destruct (batch_loop model rest (groups ++ [(start, size)]) (start + size)
                (_batch model bi prepared)) as [merged groups'].
    f_equal. lia.
Qed.

(** X14: planning the invocations [a] followed by the invocations [b] is
    planning [a] and going on with [b] from what [a] merged: the groups are
    those of [a] followed by those of [b] moved up by the total length of
    [a], and the loop over [a ++ b] is the loop over [b] started from the
    merged input, the groups and the offset the loop over [a] ends with. *)
Theorem batch_of_concatenation (model : Model) (a b : list Call) :
  snd (batch model (a ++ b))
  = snd (batch model a)
    ++ map (fun g => (fst g + total (lengths model a), snd g))
         (snd (batch model b))
  /\ batch_loop model (a ++ b) [] 0 None
     = batch_loop model b (snd (batch model a)) (total (lengths model a))
         (fst (batch_loop model a [] 0 None)).
Proof.
  split.
  - rewrite !batch_groups_spec. unfold lengths. rewrite map_app.
    rewrite groups_from_app, Z.add_0_l.
    f_equal. apply groups_from_shift.
  - rewrite batch_loop_app. unfold batch.
    destruct (batch_loop model a [] 0 None) as [merged groups]. reflexivity.
Qed.

End TracerMore.

(** ** The legacy backend: results and the blocking loop *)

Module LegacyFacts.
Import Remote Observe ObserveValues Steps RemoteLemmas HandleFacts PollFacts.
Import ResultValueFacts SubmitFacts.

Lemma heap_logged w evs : heap (logged w evs) = heap w.
Proof. reflexivity. Qed.

Lemma legacy_completed_eq_full env self object response w :
  status response = COMPLETED ->
  Legacy.handle_response env self object response w
  = match download env self (id response) (logged w [EvLog response]) with
    | (Returned result_bytes, w1) =>
        match torch_load env result_bytes with
        | Returned result =>
            let written :=
              Legacy.remote_backend_handle_result_value result
                (nth object (heap w1) []) in
            (match snd written with
             | None => Returned response
             | Some e => Raised e
             end,
             with_graph (logged w1 [EvHandleResultValue result]) object
               (fst written))
        | Raised e => (Raised e, w1)
        | Hung => (Hung, w1)
        end
    | (Raised e, w1) => (Raised e, w1)
    | (Hung, w1) => (Hung, w1)
    end.
Proof.
  intros Hs. unfold Legacy.handle_response. rewrite Hs.
  unfold bind at 1. rewrite emit_eq. unfold bind at 1.
  destruct (download env self (id response) (logged w [EvLog response]))
    as [[b | e |] w1]; try reflexivity.
  unfold bind at 1, lift at 1.
  destruct (torch_load env b) as [result | e |]; try reflexivity.
  unfold bind at 1. rewrite emit_eq. unfold bind at 1, read_graph at 1.
  change (heap (logged w1 [EvHandleResultValue result])) with (heap w1).
  cbv zeta.
  destruct (Legacy.remote_backend_handle_result_value result
              (nth object (heap w1) [])) as [nodes' [e|]]; reflexivity.
Qed.

(** X15: when the legacy client handles a Completed message whose result
    streams and decodes, and the result names only nodes of the object's
    graph (node names being distinct), it returns the response with the
    graph written: every node the result names holds the result's value,
    every other node and every other graph object is as it was; the
    download, its progress and the writing are recorded in that order.  If
    the result names something that is not a node, [KeyError] is raised and
    the values before that name stay written. *)
Theorem legacy_completed_writes_result (env : Env) (self : RemoteBackend)
    (object : GraphRef) (response : ResponseModel) (w : World)
    (total_size : Z) (result : RESULT) :
  status response = COMPLETED ->
  content_length (result_stream env (id response)) = Declared total_size ->
  ending (result_stream env (id response)) = Exhausted ->
  torch_load env (List.concat (chunks (result_stream env (id response))))
  = Returned result ->
  (object < List.length (heap w))%nat ->
  let nodes := nth object (heap w) [] in
  let outcome := Legacy.handle_response env self object response w in
  trace (snd outcome)
  = trace w ++ EvLog response :: EvGetResult (result_url self (id response))
               :: map progress (chunks (result_stream env (id response)))
               ++ [EvHandleResultValue result]
  /\ (forall h, h <> object ->
        nth h (heap (snd outcome)) [] = nth h (heap w) [])
  /\ (NoDup (map name nodes) -> known result nodes ->
      fst outcome = Returned response
      /\ nth object (heap (snd outcome)) [] = map (updated result) nodes)
  /\ (forall pre key v post,
        result = pre ++ (key, v) :: post ->
        known pre nodes ->
        existsb (has_name key) nodes = false ->
        fst outcome = Raised (KeyError key)
        /\ nth object (heap (snd outcome)) []
           = fst (Legacy.remote_backend_handle_result_value pre nodes)).
Proof.
  intros Hs Hcl Hend Hload Hlive nodes outcome. subst outcome nodes.
  rewrite (legacy_completed_eq_full env self object response w Hs).
  rewrite download_eq, Hcl. cbv zeta. rewrite Hend, Hload.
  rewrite logged_logged. cbn [snd fst]. rewrite !heap_logged.
  split; [|split; [|split]].
  - simpl. rewrite <- !app_assoc. reflexivity.
  - intros h Hne. simpl. apply nth_store_other. congruence.
  - intros Hnd Hk.
    rewrite (handle_result_value_known result _ Hnd Hk). simpl.
    split; [reflexivity |]. apply nth_store_same. exact Hlive.
  - intros pre key v post -> Hk Hkey.
    rewrite (handle_result_value_fault pre _ key v post Hk Hkey). simpl.
    split; [reflexivity |]. apply nth_store_same. exact Hlive.
Qed.

Lemma legacy_completed_writes_result_witness :
  let outcome :=
    Legacy.handle_response
      (Examples.env [] Examples.queued Examples.three_bytes)
      Examples.blocking_backend 0%nat Examples.completed_null
      (Examples.world None) in
  fst outcome = Returned Examples.completed_null
  /\ nth 0 (heap (snd outcome)) []
     = [Examples.node_a; Examples.node_local;
        set_value (PyInt 10) Examples.node_b].
Proof.
  destruct (legacy_completed_writes_result
              (Examples.env [] Examples.queued Examples.three_bytes)
              Examples.blocking_backend 0%nat Examples.completed_null
              (Examples.world None) 3 [("b", PyInt 10)]
              eq_refl eq_refl eq_refl eq_refl ltac:(simpl; lia))
    as (_ & _ & Hok & _).
  apply Hok.
  - repeat constructor; simpl; intuition discriminate.
  - repeat constructor.
Defined.








End LegacyFacts.

(** ** Streamed values: serializing and deserializing *)

Module RequestFacts.
Import Remote Request.

(** X17: [StreamValueModel.deserialize] undoes [serialize_model] only when
    it is told to decompress and to decode: with codecs that invert each
    other on the value's encoding, both flags set give back what
    [try_deserialize] makes of the dumped [value] field; with [_msgspec]
    off, as by default, the bytes reach the model undecoded and a
    [TypeError] is raised; and a mapping handed in with [_zlib] or
    [_msgspec] set is refused by the codec with a [TypeError], while with
    both off it is read directly. *)
Theorem stream_value_round_trip (c : Codecs) (value dumped : PyVal) :
  decompress c (compress c (msgspec_encode c (dump c value)))
  = Returned (msgspec_encode c (dump c value)) ->
  msgspec_decode c (msgspec_encode c (dump c value)) = Returned (dump c value) ->
  field "value" (dump c value) = Some dumped ->
  deserialize c (WireBytes (serialize_model c value)) true true
  = try_deserialize c dumped
  /\ deserialize c (WireBytes (serialize_model c value)) false false
     = Raised (TypeError "mapping")
  /\ deserialize c (WireBytes (serialize_model c value)) false true
     = Raised (TypeError "mapping")
  /\ deserialize c (WireDict (dump c value)) false false
     = try_deserialize c dumped
  /\ (forall _msgspec,
        deserialize c (WireDict (dump c value)) _msgspec true
        = Raised (TypeError "bytes-like object"))
  /\ deserialize c (WireDict (dump c value)) true false
     = Raised (TypeError "bytes-like object").
Proof.
  intros Hz Hj Hv. unfold deserialize, serialize_model. cbv zeta.
  rewrite Hz, Hj, Hv. repeat split.
Qed.

Lemma stream_value_round_trip_witness :
  deserialize toy (WireBytes (serialize_model toy (PyInt 7))) true true
  = Returned (PyInt 7)
  /\ deserialize toy (WireBytes (serialize_model toy (PyInt 7))) false false
     = Raised (TypeError "mapping").
Proof.
  destruct (stream_value_round_trip toy (PyInt 7) (PyInt 7)
              eq_refl eq_refl eq_refl) as (H1 & H2 & _).
  split; [exact H1 | exact H2].
Defined.

End RequestFacts.

(** ** Which nodes the preprocessing prunes, and from which graph *)

Module PruneFacts.
Import Remote Observe ObserveValues ObservePrune Steps RemoteLemmas.
Import PollFacts SerializeFacts SubmitFacts.

Lemma local_nodes_app a b :
  local_nodes (a ++ b) = local_nodes a ++ local_nodes b.
Proof. apply filter_app. Qed.


Lemma pruned_nodes_app a b :
  pruned_nodes (a ++ b) = pruned_nodes a ++ pruned_nodes b.
Proof.
  induction a as [|ev a IH]; simpl; [reflexivity|].
  destruct ev; simpl; now rewrite IH.
Qed.




















End PruneFacts.
